(** * simple3dengine: the wireframe cube demo of [rusticengine.cpp]

    A shallow embedding of the program: the projection function
    [project], the event handling of the frame loop, the camera update,
    the draw step, and the start-up and shut-down of [main].

    - A C++ [float] is an IEEE 754 binary32 value: the Standard
      Library's [SpecFloat] at precision 24 and maximal exponent 128,
      every operation rounded on its own to nearest, ties to even.
    - An [int] is a [Z]. [static_cast<int>] of a [float] truncates; where
      C++ leaves the conversion undefined (a NaN, an infinity, a value
      out of the range of [int]) the model returns [None].
    - [std::cos] and [std::sin], and the text [operator<<] writes for a
      [float], belong to the C++ library: they are parameters.
    - SDL is the list of calls made to it. The events a poll finds
      pending are an input: one list for each iteration of the loop.
      The loop has no bound of its own; a run is given finitely many
      polls, and is still running if they end before a quit event. *)

From Stdlib Require Import ZArith List Bool String Ascii Lia.
From Stdlib Require Import Floats.SpecFloat.
Import ListNotations.

Local Open Scope Z_scope.

(** ** binary32 arithmetic *)

Module F32.

Definition prec : Z := 24.
Definition emax : Z := 128.

Definition float : Type := spec_float.

Definition add : float -> float -> float := SFadd prec emax.
Definition sub : float -> float -> float := SFsub prec emax.
Definition mul : float -> float -> float := SFmul prec emax.
Definition div : float -> float -> float := SFdiv prec emax.

(** A well-formed binary32 datum: the mantissa of a finite value is
    canonical and its exponent is in range. *)
Definition valid (x : float) : bool := valid_binary prec emax x.

(** Neither an infinity nor a NaN. *)
Definition is_finite (x : float) : bool :=
  match x with
  | S754_zero _ | S754_finite _ _ _ => true
  | S754_infinity _ | S754_nan => false
  end.

Definition is_zero (x : float) : bool :=
  match x with
  | S754_zero _ => true
  | _ => false
  end.

(** A finite value other than the two zeros. *)
Definition is_nonzero_finite (x : float) : bool :=
  match x with
  | S754_finite _ _ _ => true
  | _ => false
  end.

(** The conversion of an [int] to [float], as in [cx + xz * factor]
    and in the initialisers [{0, 0, 0}] and [{-100, -100, -100}]. *)
Definition of_int (n : Z) : float := binary_normalize prec emax n 0 false.

Definition INT_MIN : Z := - 2 ^ 31.
Definition INT_MAX : Z := 2 ^ 31 - 1.

(** The integral part of a finite value, rounded toward zero. *)
Definition trunc (x : float) : option Z :=
  match x with
  | S754_zero _ => Some 0
  | S754_finite s m e => Some (cond_Zopp s (Z.shiftl (Zpos m) e))
  | S754_infinity _ | S754_nan => None
  end.

(** [static_cast<int>] of a [float]: the truncated value when it is
    an [int]; the conversion of a NaN, of an infinity or of a value
    out of the range of [int] is undefined, rendered by [None]. *)
Definition to_int (x : float) : option Z :=
  match trunc x with
  | Some n => if (INT_MIN <=? n) && (n <=? INT_MAX) then Some n else None
  | None => None
  end.

Definition zero : float := S754_zero false.
Definition one : float := S754_finite false 8388608 (-23).

(** The literal [0.05f]: the binary32 value nearest to 1/20. *)
Definition lit_0_05 : float := S754_finite false 13421773 (-28).

(** The largest finite binary32 value, [FLT_MAX]. *)
Definition FLT_MAX : float := S754_finite false 16777215 104.

(** Stand-ins for [std::sin] and [std::cos], used to run the program on
    concrete inputs: the Taylor polynomials of degree 7 and 6 around 0,
    evaluated in binary32. Like the library's functions they give
    [sin 0 = 0] and [cos 0 = 1] exactly, and they are close to them on
    the small angles the program steps through: at 0.05 they return
    0.049979169 and 0.99875027. *)
Definition sin_taylor (a : float) : float :=
  let a2 := mul a a in
  let c i := of_int i in
  mul a (sub one (mul (div a2 (c 6))
                      (sub one (mul (div a2 (c 20))
                                    (sub one (div a2 (c 42))))))).

Definition cos_taylor (a : float) : float :=
  let a2 := mul a a in
  let c i := of_int i in
  sub one (mul (div a2 (c 2))
               (sub one (mul (div a2 (c 12))
                             (sub one (div a2 (c 30)))))).

(** The last step of [binary_round_aux]: the value made of a mantissa
    and an exponent, or an infinity past the largest exponent. *)
Definition finish (s : bool) (me : shr_record * Z) : float :=
  match shr_m (fst me) with
  | Z0 => S754_zero s
  | Zpos m => if snd me <=? emax - prec then S754_finite s m (snd me) else S754_infinity s
  | Zneg _ => S754_nan
  end.

(** The same number: the same value, or two zeros, whose sign the
    comparison [==] does not see. *)
Definition same_number (a b : float) : Prop :=
  a = b \/ (is_zero a = true /\ is_zero b = true).

(** The integers every one of which is a binary32 value: those of
    magnitude below 2^24. *)
Definition exact_int (n : Z) : Prop := Z.abs n < 2 ^ 24.

End F32.

Definition float : Type := F32.float.

Arguments F32.add : simpl never.
Arguments F32.sub : simpl never.
Arguments F32.mul : simpl never.
Arguments F32.div : simpl never.
Arguments F32.of_int : simpl never.
Arguments F32.to_int : simpl never.

Declare Scope f32_scope.
Delimit Scope f32_scope with f32.
Infix "+" := F32.add : f32_scope.
Infix "-" := F32.sub : f32_scope.
Infix "*" := F32.mul : f32_scope.
Infix "/" := F32.div : f32_scope.

(** ** Data model *)

Record Point3D : Type := mkPoint3D { x : float; y : float; z : float }.

Record SDL_Point : Type := mkPoint { px : Z; py : Z }.

(** The events [SDL_PollEvent] delivers, by [e.type]; [sym] is
    [e.key.keysym.sym]. [SDL_OTHER] stands for every other type. *)
Inductive SDL_Event : Type :=
| SDL_QUIT
| SDL_KEYDOWN (sym : Z)
| SDL_KEYUP (sym : Z)
| SDL_OTHER.

(** Key codes of SDL2's [SDL_keycode.h]: the character of a printable
    key, and the scancode with bit 30 set for the arrows. *)
Definition SDLK_w : Z := 119.
Definition SDLK_a : Z := 97.
Definition SDLK_s : Z := 115.
Definition SDLK_d : Z := 100.
Definition SDLK_q : Z := 113.
Definition SDLK_e : Z := 101.
Definition SDLK_RIGHT : Z := 1073741903.
Definition SDLK_LEFT : Z := 1073741904.
Definition SDLK_DOWN : Z := 1073741905.
Definition SDLK_UP : Z := 1073741906.

(** The ten key state variables of [main]. *)
Record Keys : Type := mkKeys {
  key_w : bool; key_a : bool; key_s : bool; key_d : bool;
  key_q : bool; key_e : bool;
  key_left : bool; key_right : bool; key_up : bool; key_down : bool
}.

Definition set_key_w (b : bool) (k : Keys) : Keys :=
  mkKeys b (key_a k) (key_s k) (key_d k) (key_q k) (key_e k)
    (key_left k) (key_right k) (key_up k) (key_down k).
Definition set_key_a (b : bool) (k : Keys) : Keys :=
  mkKeys (key_w k) b (key_s k) (key_d k) (key_q k) (key_e k)
    (key_left k) (key_right k) (key_up k) (key_down k).
Definition set_key_s (b : bool) (k : Keys) : Keys :=
  mkKeys (key_w k) (key_a k) b (key_d k) (key_q k) (key_e k)
    (key_left k) (key_right k) (key_up k) (key_down k).
Definition set_key_d (b : bool) (k : Keys) : Keys :=
  mkKeys (key_w k) (key_a k) (key_s k) b (key_q k) (key_e k)
    (key_left k) (key_right k) (key_up k) (key_down k).
Definition set_key_q (b : bool) (k : Keys) : Keys :=
  mkKeys (key_w k) (key_a k) (key_s k) (key_d k) b (key_e k)
    (key_left k) (key_right k) (key_up k) (key_down k).
Definition set_key_e (b : bool) (k : Keys) : Keys :=
  mkKeys (key_w k) (key_a k) (key_s k) (key_d k) (key_q k) b
    (key_left k) (key_right k) (key_up k) (key_down k).
Definition set_key_left (b : bool) (k : Keys) : Keys :=
  mkKeys (key_w k) (key_a k) (key_s k) (key_d k) (key_q k) (key_e k)
    b (key_right k) (key_up k) (key_down k).
Definition set_key_right (b : bool) (k : Keys) : Keys :=
  mkKeys (key_w k) (key_a k) (key_s k) (key_d k) (key_q k) (key_e k)
    (key_left k) b (key_up k) (key_down k).
Definition set_key_up (b : bool) (k : Keys) : Keys :=
  mkKeys (key_w k) (key_a k) (key_s k) (key_d k) (key_q k) (key_e k)
    (key_left k) (key_right k) b (key_down k).
Definition set_key_down (b : bool) (k : Keys) : Keys :=
  mkKeys (key_w k) (key_a k) (key_s k) (key_d k) (key_q k) (key_e k)
    (key_left k) (key_right k) (key_up k) b.

Definition no_keys : Keys :=
  mkKeys false false false false false false false false false false.

(** The calls [main] makes to SDL, in the order it makes them, apart
    from the two that only read: [SDL_PollEvent], whose answers are the
    events given to the loop, and [SDL_GetError], whose text belongs to
    the platform. A projected point whose conversion to [int] is
    undefined is carried as [None] by the line that uses it. *)
Inductive SDL_Call : Type :=
| SDL_Init
| SDL_CreateWindow (title : string) (w h : Z)
| SDL_CreateRenderer
| SDL_SetRenderDrawColor (r g b a : Z)
| SDL_RenderClear
| SDL_RenderDrawLine (p1 p2 : option SDL_Point)
| SDL_RenderPresent
| SDL_Delay (ms : Z)
| SDL_DestroyRenderer
| SDL_DestroyWindow
| SDL_Quit.

(** The variables of [main] that live across the frame loop, with what
    the program has written to [std::cout] and the calls it has made to
    SDL so far (oldest first). *)
Record World : Type := mkWorld {
  camera : Point3D;
  yaw : float;
  pitch : float;
  cube1 : list Point3D;
  keys : Keys;
  quit : bool;
  cout : list string;
  calls : list SDL_Call
}.

Definition set_camera (c : Point3D) (w : World) : World :=
  mkWorld c (yaw w) (pitch w) (cube1 w) (keys w) (quit w) (cout w) (calls w).
Definition set_yaw (a : float) (w : World) : World :=
  mkWorld (camera w) a (pitch w) (cube1 w) (keys w) (quit w) (cout w) (calls w).
Definition set_pitch (a : float) (w : World) : World :=
  mkWorld (camera w) (yaw w) a (cube1 w) (keys w) (quit w) (cout w) (calls w).
Definition set_keys (k : Keys) (w : World) : World :=
  mkWorld (camera w) (yaw w) (pitch w) (cube1 w) k (quit w) (cout w) (calls w).
Definition set_quit (q : bool) (w : World) : World :=
  mkWorld (camera w) (yaw w) (pitch w) (cube1 w) (keys w) q (cout w) (calls w).
Definition print (line : string) (w : World) : World :=
  mkWorld (camera w) (yaw w) (pitch w) (cube1 w) (keys w) (quit w)
    (cout w ++ [line]) (calls w).
Definition call (c : list SDL_Call) (w : World) : World :=
  mkWorld (camera w) (yaw w) (pitch w) (cube1 w) (keys w) (quit w)
    (cout w) (calls w ++ c).

(** What the three start-up calls of [main] answer on a given run, and
    the text of [SDL_GetError]. *)
Record Platform : Type := mkPlatform {
  init_ok : bool;
  window_ok : bool;
  renderer_ok : bool;
  SDL_GetError : string
}.

(** What a run of [main] leaves behind: its exit status ([None] while
    the loop is still running when the supplied events end), the lines
    on [std::cout] and [std::cerr], and the calls made to SDL. *)
Record Outcome : Type := mkOutcome {
  status : option Z;
  stdout : list string;
  stderr : list string;
  sdl_calls : list SDL_Call
}.

(** ** The program *)

Local Open Scope string_scope.

(** The end of a line, ["\n"]. *)
Definition nl : string := String (ascii_of_nat 10) EmptyString.

Definition cx : Z := 1280 / 2.
Definition cy : Z := 720 / 2.
Definition fov : float := F32.of_int 500.
Definition moveSpeed : float := F32.of_int 16.
Definition rotSpeed : float := F32.lit_0_05.

Definition origin : Point3D := mkPoint3D F32.zero F32.zero F32.zero.

Definition vertex (a b c : Z) : Point3D :=
  mkPoint3D (F32.of_int a) (F32.of_int b) (F32.of_int c).

(** Cube setup. *)
Definition cube : list Point3D :=
  [ vertex (-100) (-100) (-100);
    vertex 100 (-100) (-100);
    vertex 100 100 (-100);
    vertex (-100) 100 (-100);
    vertex (-100) (-100) 100;
    vertex 100 (-100) 100;
    vertex 100 100 100;
    vertex (-100) 100 100 ].

(** The variables of [main] as the loop is entered. *)
Definition initial_world : World :=
  mkWorld origin F32.zero F32.zero cube no_keys false [] [].

Section Engine.

(** [std::cos] and [std::sin] on [float], from the C++ library. *)
Variable cosf sinf : float -> float.

(** The text [operator<<] writes for a [float]. *)
Variable show : float -> string.

(** *** Rotation and projection with camera *)

(** The two coordinates of [project] as [float]s, before the
    conversion to [int]. *)
Definition project_f (p : Point3D) (cx cy : Z) (fov : float)
    (camera : Point3D) (yaw pitch : float) : float * float :=
  let x := (x p - x camera)%f32 in
  let y := (y p - y camera)%f32 in
  let z := (z p - z camera)%f32 in
  let cosYaw := cosf yaw in
  let sinYaw := sinf yaw in
  let xz := (x * cosYaw - z * sinYaw)%f32 in
  let zz := (x * sinYaw + z * cosYaw)%f32 in
  let cosPitch := cosf pitch in
  let sinPitch := sinf pitch in
  let yz := (y * cosPitch - zz * sinPitch)%f32 in
  let zz2 := (y * sinPitch + zz * cosPitch)%f32 in
  let factor := (fov / (zz2 + fov))%f32 in
  ((F32.of_int cx + xz * factor)%f32, (F32.of_int cy + yz * factor)%f32).

(** The denominator [zz2 + fov] of the perspective divide. *)
Definition denominator (p : Point3D) (fov : float)
    (camera : Point3D) (yaw pitch : float) : float :=
  let x := (x p - x camera)%f32 in
  let y := (y p - y camera)%f32 in
  let z := (z p - z camera)%f32 in
  let zz := (x * sinf yaw + z * cosf yaw)%f32 in
  let zz2 := (y * sinf pitch + zz * cosf pitch)%f32 in
  (zz2 + fov)%f32.

(** [project]: the two coordinates converted to [int]; [None] when one
    of the two conversions is undefined. *)
Definition project (p : Point3D) (cx cy : Z) (fov : float)
    (camera : Point3D) (yaw pitch : float) : option SDL_Point :=
  let '(sx, sy) := project_f p cx cy fov camera yaw pitch in
  match F32.to_int sx, F32.to_int sy with
  | Some ix, Some iy => Some (mkPoint ix iy)
  | _, _ => None
  end.

(** *** Handle SDL events *)

Definition pressed_or_released (pressed : bool) : string :=
  if pressed then "pressed" else "released".

(** The [switch] on [e.key.keysym.sym]. *)
Definition on_key (sym : Z) (pressed : bool) (w : World) : World :=
  let k := keys w in
  let log name := print (name ++ pressed_or_released pressed ++ nl) in
  if Z.eqb sym SDLK_w then log "[Event] W " (set_keys (set_key_w pressed k) w)
  else if Z.eqb sym SDLK_a then log "[Event] A " (set_keys (set_key_a pressed k) w)
  else if Z.eqb sym SDLK_s then log "[Event] S " (set_keys (set_key_s pressed k) w)
  else if Z.eqb sym SDLK_d then log "[Event] D " (set_keys (set_key_d pressed k) w)
  else if Z.eqb sym SDLK_q then log "[Event] Q " (set_keys (set_key_q pressed k) w)
  else if Z.eqb sym SDLK_e then log "[Event] E " (set_keys (set_key_e pressed k) w)
  else if Z.eqb sym SDLK_LEFT then
    log "[Event] LEFT " (set_keys (set_key_left pressed k) w)
  else if Z.eqb sym SDLK_RIGHT then
    log "[Event] RIGHT " (set_keys (set_key_right pressed k) w)
  else if Z.eqb sym SDLK_UP then
    log "[Event] UP " (set_keys (set_key_up pressed k) w)
  else if Z.eqb sym SDLK_DOWN then
    log "[Event] DOWN " (set_keys (set_key_down pressed k) w)
  else w.

(** The body of [while (SDL_PollEvent(&e))] for one event. *)
Definition handle_event (e : SDL_Event) (w : World) : World :=
  let w :=
    match e with
    | SDL_QUIT => set_quit true (print ("[Event] Quit event received." ++ nl) w)
    | _ => w
    end in
  match e with
  | SDL_KEYDOWN sym => on_key sym true w
  | SDL_KEYUP sym => on_key sym false w
  | _ => w
  end.

(** [while (SDL_PollEvent(&e)) ...]: every event pending at the poll
    is handled, in order, until the queue is empty. *)
Fixpoint poll_events (pending : list SDL_Event) (w : World) : World :=
  match pending with
  | [] => w
  | e :: rest => poll_events rest (handle_event e w)
  end.

(** *** Debug line, rotation and movement *)

Definition any_key (k : Keys) : bool :=
  key_w k || key_a k || key_s k || key_d k || key_q k || key_e k ||
  key_left k || key_right k || key_up k || key_down k.

Definition debug (w : World) : World :=
  if any_key (keys w) then
    print ("[Debug] Camera: (" ++ show (x (camera w)) ++ ", "
             ++ show (y (camera w)) ++ ", " ++ show (z (camera w))
             ++ ")  Yaw: " ++ show (yaw w) ++ "  Pitch: " ++ show (pitch w)
             ++ nl) w
  else w.

(** Camera rotation: the four [if] statements, in the order of the
    source. *)
Definition if_key_left (w : World) : World :=
  if key_left (keys w) then set_yaw (yaw w - rotSpeed)%f32 w else w.
Definition if_key_right (w : World) : World :=
  if key_right (keys w) then set_yaw (yaw w + rotSpeed)%f32 w else w.
Definition if_key_up (w : World) : World :=
  if key_up (keys w) then set_pitch (pitch w - rotSpeed)%f32 w else w.
Definition if_key_down (w : World) : World :=
  if key_down (keys w) then set_pitch (pitch w + rotSpeed)%f32 w else w.

Definition rotate (w : World) : World :=
  if_key_down (if_key_up (if_key_right (if_key_left w))).

(** Camera movement (WASD + QE): the six [if] statements, in the order
    of the source. *)
Definition if_key_a (w : World) : World :=
  if key_a (keys w) then
    let c := camera w in
    set_camera (mkPoint3D (x c - moveSpeed * cosf (yaw w))%f32 (y c)
                          (z c + moveSpeed * sinf (yaw w))%f32) w
  else w.
Definition if_key_d (w : World) : World :=
  if key_d (keys w) then
    let c := camera w in
    set_camera (mkPoint3D (x c + moveSpeed * cosf (yaw w))%f32 (y c)
                          (z c - moveSpeed * sinf (yaw w))%f32) w
  else w.
Definition if_key_w (w : World) : World :=
  if key_w (keys w) then
    let c := camera w in
    set_camera (mkPoint3D (x c + moveSpeed * sinf (yaw w))%f32 (y c)
                          (z c + moveSpeed * cosf (yaw w))%f32) w
  else w.
Definition if_key_s (w : World) : World :=
  if key_s (keys w) then
    let c := camera w in
    set_camera (mkPoint3D (x c - moveSpeed * sinf (yaw w))%f32 (y c)
                          (z c - moveSpeed * cosf (yaw w))%f32) w
  else w.
Definition if_key_q (w : World) : World :=
  if key_q (keys w) then
    let c := camera w in
    set_camera (mkPoint3D (x c) (y c - moveSpeed)%f32 (z c)) w
  else w.
Definition if_key_e (w : World) : World :=
  if key_e (keys w) then
    let c := camera w in
    set_camera (mkPoint3D (x c) (y c + moveSpeed)%f32 (z c)) w
  else w.

Definition move (w : World) : World :=
  if_key_e (if_key_q (if_key_s (if_key_w (if_key_d (if_key_a w))))).

(** The state at the draw step of a frame: after the poll, the debug
    line, the rotation and the movement. *)
Definition posed (pending : list SDL_Event) (w : World) : World :=
  move (rotate (debug (poll_events pending w))).

(** *** Clear, project, draw, present *)

(** [for (int i = 0; i < 8; ++i) proj[i] = project(cube1[i], ...)]. *)
Definition project_cube (w : World) : list (option SDL_Point) :=
  map (fun i => project (nth i (cube1 w) origin) cx cy fov
                  (camera w) (yaw w) (pitch w))
      (seq 0 8).

(** Draw all cube edges. *)
Definition draw_edges (proj : list (option SDL_Point)) : list SDL_Call :=
  let at_ (i : nat) := nth i proj None in
  [ SDL_RenderDrawLine (at_ 0%nat) (at_ 1%nat);
    SDL_RenderDrawLine (at_ 1%nat) (at_ 2%nat);
    SDL_RenderDrawLine (at_ 2%nat) (at_ 3%nat);
    SDL_RenderDrawLine (at_ 3%nat) (at_ 0%nat);
    SDL_RenderDrawLine (at_ 4%nat) (at_ 5%nat);
    SDL_RenderDrawLine (at_ 5%nat) (at_ 6%nat);
    SDL_RenderDrawLine (at_ 6%nat) (at_ 7%nat);
    SDL_RenderDrawLine (at_ 7%nat) (at_ 4%nat);
    SDL_RenderDrawLine (at_ 0%nat) (at_ 4%nat);
    SDL_RenderDrawLine (at_ 1%nat) (at_ 5%nat);
    SDL_RenderDrawLine (at_ 2%nat) (at_ 6%nat);
    SDL_RenderDrawLine (at_ 3%nat) (at_ 7%nat) ].

(** The calls of one frame, from the clear to the delay. *)
Definition frame_calls (w : World) : list SDL_Call :=
  [ SDL_SetRenderDrawColor 0 0 0 255; SDL_RenderClear ]
  ++ [ SDL_SetRenderDrawColor 0 128 255 255 ]
  ++ draw_edges (project_cube w)
  ++ [ SDL_RenderPresent; SDL_Delay 16 ].

Definition render (w : World) : World := call (frame_calls w) w.

(** *** The frame loop and [main] *)

(** One iteration of [while (!quit)], given the events pending at its
    poll. *)
Definition frame (pending : list SDL_Event) (w : World) : World :=
  render (posed pending w).

(** [while (!quit) ...], given the events pending at the poll of each
    coming iteration. The loop has no bound of its own: when the
    supplied polls end with [quit] still false the world reached so far
    is returned, the loop still running. *)
Fixpoint loop (polls : list (list SDL_Event)) (w : World) : World :=
  if quit w then w
  else
    match polls with
    | [] => w
    | pending :: later => loop later (frame pending w)
    end.

Definition window_title : string := "3D Cube Perspective Projection".

Definition main (sdl : Platform) (polls : list (list SDL_Event)) : Outcome :=
  if negb (init_ok sdl) then
    mkOutcome (Some 1) []
      [ "Couldn't initialize SDL: " ++ SDL_GetError sdl ++ nl ]
      [ SDL_Init ]
  else if negb (window_ok sdl) then
    mkOutcome (Some 1) []
      [ "Couldn't create window: " ++ SDL_GetError sdl ++ nl ]
      [ SDL_Init; SDL_CreateWindow window_title 1280 720; SDL_Quit ]
  else if negb (renderer_ok sdl) then
    mkOutcome (Some 1) []
      [ "Couldn't create renderer: " ++ SDL_GetError sdl ++ nl ]
      [ SDL_Init; SDL_CreateWindow window_title 1280 720; SDL_CreateRenderer;
        SDL_DestroyWindow; SDL_Quit ]
  else
    let start :=
      [ SDL_Init; SDL_CreateWindow window_title 1280 720; SDL_CreateRenderer ] in
    let w := loop polls initial_world in
    if quit w then
      mkOutcome (Some 0) (cout w) []
        (start ++ calls w ++ [ SDL_DestroyRenderer; SDL_DestroyWindow; SDL_Quit ])
    else
      mkOutcome None (cout w) [] (start ++ calls w).

End Engine.

(** ** The properties, in the terms of the model *)

(** The ten recognized key codes. *)
Definition recognized_keys : list Z :=
  [ SDLK_w; SDLK_a; SDLK_s; SDLK_d; SDLK_q; SDLK_e;
    SDLK_LEFT; SDLK_RIGHT; SDLK_UP; SDLK_DOWN ].

(** The state variable that belongs to a key code. *)
Definition flag (sym : Z) (k : Keys) : bool :=
  if Z.eqb sym SDLK_w then key_w k
  else if Z.eqb sym SDLK_a then key_a k
  else if Z.eqb sym SDLK_s then key_s k
  else if Z.eqb sym SDLK_d then key_d k
  else if Z.eqb sym SDLK_q then key_q k
  else if Z.eqb sym SDLK_e then key_e k
  else if Z.eqb sym SDLK_LEFT then key_left k
  else if Z.eqb sym SDLK_RIGHT then key_right k
  else if Z.eqb sym SDLK_UP then key_up k
  else if Z.eqb sym SDLK_DOWN then key_down k
  else false.

(** The name a key code is logged under. *)
Definition key_name (sym : Z) : string :=
  if Z.eqb sym SDLK_w then "W"
  else if Z.eqb sym SDLK_a then "A"
  else if Z.eqb sym SDLK_s then "S"
  else if Z.eqb sym SDLK_d then "D"
  else if Z.eqb sym SDLK_q then "Q"
  else if Z.eqb sym SDLK_e then "E"
  else if Z.eqb sym SDLK_LEFT then "LEFT"
  else if Z.eqb sym SDLK_RIGHT then "RIGHT"
  else if Z.eqb sym SDLK_UP then "UP"
  else if Z.eqb sym SDLK_DOWN then "DOWN"
  else "".

(** The log line of a key transition. *)
Definition transition_line (sym : Z) (pressed : bool) : string :=
  "[Event] " ++ key_name sym ++ " "
    ++ (if pressed then "pressed" else "released") ++ nl.

Definition key_event (sym : Z) (pressed : bool) : SDL_Event :=
  if pressed then SDL_KEYDOWN sym else SDL_KEYUP sym.

(** [e.type == SDL_QUIT]. *)
Definition is_quit (e : SDL_Event) : bool :=
  match e with
  | SDL_QUIT => true
  | _ => false
  end.

(** The claim that a poll stops at the quit event: whatever is pending
    behind it changes no key flag and writes no line. *)
Definition events_after_quit_ignored : Prop :=
  forall (before after : list SDL_Event) (w : World),
    let stop := poll_events (before ++ [SDL_QUIT]) w in
    let all := poll_events (before ++ SDL_QUIT :: after) w in
    keys all = keys stop /\ cout all = cout stop.

(** The twelve edges of the cube, as pairs of vertex indices. *)
Definition edges : list (nat * nat) :=
  [ (0, 1); (1, 2); (2, 3); (3, 0);
    (4, 5); (5, 6); (6, 7); (7, 4);
    (0, 4); (1, 5); (2, 6); (3, 7) ]%nat.

(** An edge without its direction. *)
Definition undirected (e : nat * nat) : nat * nat :=
  (Nat.min (fst e) (snd e), Nat.max (fst e) (snd e)).

Definition is_line (c : SDL_Call) : bool :=
  match c with
  | SDL_RenderDrawLine _ _ => true
  | _ => false
  end.

(** A step that leaves everything but the yaw and the pitch. *)
Definition turns (f : World -> World) : Prop :=
  forall w, camera (f w) = camera w /\ cube1 (f w) = cube1 w
    /\ keys (f w) = keys w /\ quit (f w) = quit w
    /\ cout (f w) = cout w /\ calls (f w) = calls w.

(** A step that leaves everything but the camera position. *)
Definition shifts (f : World -> World) : Prop :=
  forall w, yaw (f w) = yaw w /\ pitch (f w) = pitch w
    /\ cube1 (f w) = cube1 w /\ keys (f w) = keys w
    /\ quit (f w) = quit w /\ cout (f w) = cout w /\ calls (f w) = calls w.

(** Yaw-left and forward held, with none of the keys that would also
    turn the yaw or move along X and Z. *)
Definition left_and_forward (k : Keys) : Prop :=
  key_left k = true /\ key_w k = true /\ key_right k = false
  /\ key_a k = false /\ key_d k = false /\ key_s k = false.

(** The claim that the translation of a frame uses the yaw the frame
    started with. *)
Definition translation_from_initial_yaw (cosf sinf : float -> float)
    (show : float -> string) : Prop :=
  forall (pending : list SDL_Event) (w : World),
    left_and_forward (keys (poll_events pending w)) ->
    let w' := frame cosf sinf show pending w in
    x (camera w') = (x (camera w) + moveSpeed * sinf (yaw w))%f32
    /\ z (camera w') = (z (camera w) + moveSpeed * cosf (yaw w))%f32.

(** The initial state with given keys held. *)
Definition holding (k : Keys) : World := set_keys k initial_world.

(** A [float] written with [show_nothing] leaves no text: enough where
    the log is not looked at. *)
Definition show_nothing (a : float) : string := "".

(** The projection with yaw = pitch = 0 as the specification writes
    it: center + (P.x - C.x, P.y - C.y) * fov / ((P.z - C.z) + fov),
    each coordinate truncated to an integer. *)
Definition closed_form_f (p : Point3D) (cx cy : Z) (fov : float)
    (camera : Point3D) : float * float :=
  let factor := (fov / ((z p - z camera) + fov))%f32 in
  ((F32.of_int cx + (x p - x camera) * factor)%f32,
   (F32.of_int cy + (y p - y camera) * factor)%f32).

Definition closed_form (p : Point3D) (cx cy : Z) (fov : float)
    (camera : Point3D) : option SDL_Point :=
  let '(sx, sy) := closed_form_f p cx cy fov camera in
  match F32.to_int sx, F32.to_int sy with
  | Some ix, Some iy => Some (mkPoint ix iy)
  | _, _ => None
  end.

(** A point whose three coordinates are well-formed binary32 values. *)
Definition well_formed (p : Point3D) : Prop :=
  F32.valid (x p) = true /\ F32.valid (y p) = true /\ F32.valid (z p) = true.

(** A point within reach of the camera: none of the three coordinate
    differences overflows. *)
Definition in_reach (p camera : Point3D) : Prop :=
  F32.is_finite (x p - x camera)%f32 = true
  /\ F32.is_finite (y p - y camera)%f32 = true
  /\ F32.is_finite (z p - z camera)%f32 = true.

(** The claim that with yaw = pitch = 0 [project] is the closed form
    at every point and camera position. *)
Definition closed_form_everywhere (cosf sinf : float -> float) : Prop :=
  forall (p camera : Point3D),
    well_formed p -> well_formed camera ->
    project cosf sinf p cx cy fov camera F32.zero F32.zero
    = closed_form p cx cy fov camera.

(** The claim that [project] is defined wherever the denominator of the
    perspective divide is not zero. *)
Definition defined_off_zero_denominator (cosf sinf : float -> float) : Prop :=
  forall (p : Point3D) (cx cy : Z) (fov : float) (camera : Point3D)
         (yaw pitch : float),
    well_formed p -> well_formed camera -> F32.valid fov = true ->
    F32.valid yaw = true -> F32.valid pitch = true ->
    F32.INT_MIN <= cx <= F32.INT_MAX -> F32.INT_MIN <= cy <= F32.INT_MAX ->
    F32.is_zero (denominator cosf sinf p fov camera yaw pitch) = false ->
    project cosf sinf p cx cy fov camera yaw pitch <> None.

(** The claim that the camera's own position projects to the screen
    center, for every [int] center and every nonzero [fov]. *)
Definition own_position_at_center (cosf sinf : float -> float) : Prop :=
  forall (c : Point3D) (yaw pitch : float) (cx cy : Z) (fov : float),
    well_formed c -> F32.valid yaw = true -> F32.valid pitch = true ->
    F32.valid fov = true ->
    F32.INT_MIN <= cx <= F32.INT_MAX -> F32.INT_MIN <= cy <= F32.INT_MAX ->
    F32.is_zero fov = false ->
    project cosf sinf c cx cy fov c yaw pitch = Some (mkPoint cx cy).

(** Forward alone held. *)
Definition forward_only : Keys := set_key_w true no_keys.

(** [n] frames with no event pending. *)
Definition idle_polls (n : nat) : list (list SDL_Event) := repeat [] n.

(** The claim that [n] frames of forward alone, from any camera state
    with yaw = pitch = 0, add exactly 16 n to the camera's Z: read at a
    camera whose Z is the integer [a]. *)
Definition forward_gains_16_per_frame (cosf sinf : float -> float)
    (show : float -> string) : Prop :=
  forall (n : nat) (w : World) (a : Z),
    yaw w = F32.zero -> pitch w = F32.zero ->
    keys w = forward_only -> quit w = false ->
    well_formed (camera w) ->
    z (camera w) = F32.of_int a -> F32.to_int (F32.of_int a) = Some a ->
    F32.to_int (z (camera (loop cosf sinf show (idle_polls n) w)))
    = Some (a + 16 * Z.of_nat n).

(** ** Further vocabulary: polls, frames and runs *)

(** What a key event does to the flag of [sym]: sets it, clears it, or
    nothing when the event is about another key or is no key event. *)
Definition transition_of (sym : Z) (e : SDL_Event) : option bool :=
  match e with
  | SDL_KEYDOWN s => if Z.eqb s sym then Some true else None
  | SDL_KEYUP s => if Z.eqb s sym then Some false else None
  | _ => None
  end.

(** The value the last event of the key [sym] in a poll gives its
    flag, [None] when the poll has no event of that key. *)
Fixpoint last_transition (sym : Z) (pending : list SDL_Event) : option bool :=
  match pending with
  | [] => None
  | e :: rest =>
      match last_transition sym rest with
      | Some b => Some b
      | None => transition_of sym e
      end
  end.

(** The events the handler reacts to: the quit event and the events
    of the ten recognized keys. *)
Definition heeded (e : SDL_Event) : bool :=
  match e with
  | SDL_QUIT => true
  | SDL_KEYDOWN s | SDL_KEYUP s => existsb (Z.eqb s) recognized_keys
  | SDL_OTHER => false
  end.

(** The line a heeded event writes. *)
Definition event_line (e : SDL_Event) : string :=
  match e with
  | SDL_QUIT => "[Event] Quit event received." ++ nl
  | SDL_KEYDOWN s => transition_line s true
  | SDL_KEYUP s => transition_line s false
  | SDL_OTHER => ""
  end.

(** Two states with the same key flags; with [heading] also the same
    camera position and yaw, with [tilt] also the same pitch. *)
Definition agree (heading tilt : bool) (v1 v2 : World) : Prop :=
  keys v1 = keys v2
  /\ (heading = true -> camera v1 = camera v2 /\ yaw v1 = yaw v2)
  /\ (tilt = true -> pitch v1 = pitch v2).

(** A step under which states that agree still agree. *)
Definition respects (f : World -> World) : Prop :=
  forall (heading tilt : bool) (v1 v2 : World),
    agree heading tilt v1 v2 -> agree heading tilt (f v1) (f v2).

(** The debug line of a pose. *)
Definition debug_line (show : float -> string) (c : Point3D) (a p : float)
    : string :=
  "[Debug] Camera: (" ++ show (x c) ++ ", " ++ show (y c) ++ ", " ++ show (z c)
    ++ ")  Yaw: " ++ show a ++ "  Pitch: " ++ show p ++ nl.

(** The polls a run of the loop gets to: all of them up to and
    including the first that holds a quit event. *)
Fixpoint consumed (polls : list (list SDL_Event)) : list (list SDL_Event) :=
  match polls with
  | [] => []
  | pending :: later =>
      if existsb is_quit pending then [pending] else pending :: consumed later
  end.

(** The keys held once a poll is done, from the keys held before it:
    what the rotation and the movement of that frame read. *)
Definition held_after (pending : list SDL_Event) (k : Keys) : Keys :=
  keys (poll_events pending (holding k)).

(** Frames during which only forward is held: once the poll of each is
    done, forward and no other key is held, whatever events the poll
    delivered. [k] is what is held before the first poll. *)
Fixpoint only_forward_held (polls : list (list SDL_Event)) (k : Keys) : Prop :=
  match polls with
  | [] => True
  | pending :: later =>
      held_after pending k = forward_only
      /\ only_forward_held later (held_after pending k)
  end.

(** The pictures presented: the calls to [SDL_RenderPresent]. *)
Definition is_present (c : SDL_Call) : bool :=
  match c with
  | SDL_RenderPresent => true
  | _ => false
  end.

Definition presented (cs : list SDL_Call) : nat :=
  List.length (filter is_present cs).

(** What a run holds of SDL at some point: the library initialised,
    the window, the renderer. *)
Record Held : Type := mkHeld {
  sdl_up : bool;
  window_up : bool;
  renderer_up : bool
}.

Definition nothing_held : Held := mkHeld false false false.
Definition all_held : Held := mkHeld true true true.

(** The discipline of SDL's resources, on a platform that answers the
    three start-up calls as [sdl] says: what is held after a call, or
    [None] when the call is made without what it needs. The window
    needs the library, the renderer the window; drawing needs the
    renderer; what is released is held, and released before what it
    was made from. *)
Definition after_call (sdl : Platform) (h : Held) (c : SDL_Call) : option Held :=
  match c with
  | SDL_Init =>
      if sdl_up h then None else Some (mkHeld (init_ok sdl) false false)
  | SDL_CreateWindow _ _ _ =>
      if sdl_up h && negb (window_up h)
      then Some (mkHeld true (window_ok sdl) false) else None
  | SDL_CreateRenderer =>
      if window_up h && negb (renderer_up h)
      then Some (mkHeld (sdl_up h) true (renderer_ok sdl)) else None
  | SDL_SetRenderDrawColor _ _ _ _ | SDL_RenderClear
  | SDL_RenderDrawLine _ _ | SDL_RenderPresent =>
      if renderer_up h then Some h else None
  | SDL_Delay _ => if sdl_up h then Some h else None
  | SDL_DestroyRenderer =>
      if renderer_up h then Some (mkHeld (sdl_up h) (window_up h) false) else None
  | SDL_DestroyWindow =>
      if window_up h && negb (renderer_up h)
      then Some (mkHeld (sdl_up h) false false) else None
  | SDL_Quit =>
      if sdl_up h && negb (window_up h) then Some nothing_held else None
  end.

Fixpoint after_calls (sdl : Platform) (h : Held) (cs : list SDL_Call)
    : option Held :=
  match cs with
  | [] => Some h
  | c :: rest =>
      match after_call sdl h c with
      | Some h' => after_calls sdl h' rest
      | None => None
      end
  end.

(** The signed length of the step a pair of opposite movement keys
    makes in one frame along their axis, at yaw 0. *)
Definition stride (plus minus : bool) : Z :=
  ((if plus then 16 else 0) - (if minus then 16 else 0))%Z.

(** The four keys that turn the view. *)
Definition arrow_keys : list Z := [ SDLK_LEFT; SDLK_RIGHT; SDLK_UP; SDLK_DOWN ].

(** A key-down of one of them. *)
Definition arrow_pressed (e : SDL_Event) : bool :=
  match e with
  | SDL_KEYDOWN s => existsb (Z.eqb s) arrow_keys
  | _ => false
  end.

(** None of the four held. *)
Definition arrows_off (k : Keys) : Prop :=
  key_left k = false /\ key_right k = false
  /\ key_up k = false /\ key_down k = false.

(** Proves that a step given by one [if] on a key flag respects
    agreement. *)
Ltac respects_if step :=
  let agreed := fresh "agreed" in
  intros [|] [|]
    [c1 a1 p1 cb1 [kw ka ks kd kq ke kl kr ku kdn] q1 o1 l1]
    [c2 a2 p2 cb2 k2 q2 o2 l2] agreed;
  unfold agree in agreed; cbn [keys camera yaw pitch] in agreed;
  repeat match goal with
  | H : _ /\ _ |- _ => destruct H
  | H : true = true -> _ |- _ => specialize (H eq_refl)
  | H : false = true -> _ |- _ => clear H
  end;
  subst;
  unfold step, agree;
  cbn [keys camera yaw pitch set_camera set_yaw set_pitch
       key_w key_a key_s key_d key_q key_e key_left key_right key_up key_down];
  repeat match goal with
  | |- context [if ?b then _ else _] => destruct b
  end;
  cbn [keys camera yaw pitch set_camera set_yaw set_pitch];
  repeat (split || intro); try congruence; reflexivity.

(** Runs the rotation and movement steps on a world given by its
    fields, leaving the arithmetic on [float]s as it is written. *)
Ltac run_steps :=
  cbv beta iota zeta delta
    [ move rotate if_key_a if_key_d if_key_w if_key_s if_key_q if_key_e
      if_key_left if_key_right if_key_up if_key_down
      set_camera set_yaw set_pitch
      camera yaw pitch keys cube1 quit cout calls
      key_w key_a key_s key_d key_q key_e key_left key_right key_up key_down
      x y z ].


(** * Verification *)

(** ** binary32 arithmetic: exact cases of rounding *)

Module F32Facts.

Import F32.

Local Open Scope Z_scope.

Lemma fexp_32 (e : Z) : fexp prec emax e = Z.max (e - 24) (-149).
Proof. reflexivity. Qed.

(** SpecFloat's iterator agrees with [Pos.iter]. *)
Lemma iter_pos_iter {A : Type} (f : A -> A) (n : positive) (a : A) :
  iter_pos f n a = Pos.iter f a n.
Proof.
  revert a. induction n as [n IH | n IH |]; intro a; simpl.
  - rewrite !IH. rewrite <- !Pos.iter_swap. reflexivity.
  - rewrite !IH. reflexivity.
  - reflexivity.
Qed.

Lemma digits2_iter_xO (m k : positive) :
  digits2_pos (Pos.iter xO m k) = (digits2_pos m + k)%positive.
Proof.
  induction k as [| k IH] using Pos.peano_ind.
  - simpl. rewrite Pos.add_1_r. reflexivity.
  - rewrite Pos.iter_succ. simpl. rewrite IH. rewrite Pos.add_succ_r. reflexivity.
Qed.

Lemma Zpos_iter_xO (m k : positive) :
  Zpos (Pos.iter xO m k) = Zpos m * 2 ^ Zpos k.
Proof.
  induction k as [| k IH] using Pos.peano_ind.
  - simpl. lia.
  - rewrite Pos.iter_succ.
    change (Zpos (Pos.iter xO m k)~0) with (2 * Zpos (Pos.iter xO m k)).
    rewrite IH, Pos2Z.inj_succ, Z.pow_succ_r by lia. ring.
Qed.

Lemma shr_exact (m k : positive) :
  iter_pos shr_1 k (Build_shr_record (Zpos (Pos.iter xO m k)) false false)
  = Build_shr_record (Zpos m) false false.
Proof.
  rewrite iter_pos_iter.
  induction k as [| k IH] using Pos.peano_ind.
  - reflexivity.
  - rewrite Pos.iter_succ_r. rewrite Pos.iter_succ. exact IH.
Qed.


Lemma bounded_inv (m : positive) (e : Z) :
  bounded prec emax m e = true ->
  fexp prec emax (Zpos (digits2_pos m) + e) = e /\ e <= 104.
Proof.
  unfold bounded, canonical_mantissa. intro H.
  apply andb_prop in H. destruct H as [Hc He].
  apply Z.eqb_eq in Hc. apply Z.leb_le in He.
  split; [exact Hc | exact He].
Qed.

(** Rounding the canonical mantissa and exponent of a value returns
    them. *)
Lemma round_aux_canonical (s : bool) (m : positive) (e : Z) :
  bounded prec emax m e = true ->
  binary_round_aux prec emax s (Zpos m) e loc_Exact = S754_finite s m e.
Proof.
  intro Hb. destruct (bounded_inv m e Hb) as [Hc He].
  unfold binary_round_aux, shr_fexp.
  cbn [Zdigits2 shr_record_of_loc]. rewrite Hc, Z.sub_diag.
  cbn [shr shr_m loc_of_shr_record round_nearest_even Zdigits2 shr_record_of_loc].
  rewrite Hc, Z.sub_diag. cbn [shr shr_m].
  replace (e <=? emax - prec) with true by (symmetry; apply Z.leb_le; exact He).
  reflexivity.
Qed.

(** Rounding a mantissa that carries [k] more low zero bits than the
    canonical one shifts them out, exactly. *)
Lemma round_aux_shift (s : bool) (m k : positive) (e : Z) :
  bounded prec emax m e = true ->
  binary_round_aux prec emax s (Zpos (Pos.iter xO m k)) (e - Zpos k) loc_Exact
  = S754_finite s m e.
Proof.
  intro Hb. destruct (bounded_inv m e Hb) as [Hc He].
  unfold binary_round_aux, shr_fexp.
  cbn [Zdigits2 shr_record_of_loc]. rewrite digits2_iter_xO.
  replace (Zpos (digits2_pos m + k) + (e - Zpos k))
    with (Zpos (digits2_pos m) + e) by lia.
  rewrite Hc. replace (e - (e - Zpos k)) with (Zpos k) by lia.
  cbn [shr]. rewrite shr_exact.
  replace (e - Zpos k + Zpos k) with e by lia.
  cbn [shr_m loc_of_shr_record round_nearest_even Zdigits2 shr_record_of_loc].
  rewrite Hc, Z.sub_diag. cbn [shr shr_m].
  replace (e <=? emax - prec) with true by (symmetry; apply Z.leb_le; exact He).
  reflexivity.
Qed.

(** Rounding a representable value, written with any mantissa and
    exponent, returns its canonical mantissa and exponent: [m * 2^e] and
    [mc * 2^ec] are the same number, compared at a common exponent
    [b]. *)
Lemma round_same_value (s : bool) (m mc : positive) (e ec b : Z) :
  bounded prec emax mc ec = true ->
  b <= e -> b <= ec ->
  Zpos m * 2 ^ (e - b) = Zpos mc * 2 ^ (ec - b) ->
  binary_round prec emax s m e = S754_finite s mc ec.
Proof.
  intros Hb Hbe Hbec Hval. destruct (bounded_inv mc ec Hb) as [Hc He].
  unfold binary_round.
  destruct (Z.compare_spec e ec) as [Heq | Hlt | Hgt].
  - (* the same exponent: the same mantissa *)
    subst e. apply Z.mul_reg_r in Hval; [| apply Z.pow_nonzero; lia].
    injection Hval as ->. rewrite Hc. unfold shl_align. rewrite Z.sub_diag.
    apply round_aux_canonical. exact Hb.
  - (* a smaller exponent: the mantissa is shifted right *)
    pose (k := Z.to_pos (ec - e)).
    assert (Hk : Zpos k = ec - e) by (unfold k; rewrite Z2Pos.id; lia).
    assert (Hm : m = Pos.iter xO mc k).
    { apply Pos2Z.inj. rewrite Zpos_iter_xO, Hk.
      replace (ec - b) with ((ec - e) + (e - b)) in Hval by lia.
      rewrite Z.pow_add_r, Z.mul_assoc in Hval by lia.
      apply Z.mul_reg_r in Hval; [exact Hval | apply Z.pow_nonzero; lia]. }
    subst m. rewrite digits2_iter_xO.
    replace (Zpos (digits2_pos mc + k) + e) with (Zpos (digits2_pos mc) + ec) by lia.
    rewrite Hc. unfold shl_align. rewrite <- Hk. cbn [fst snd].
    replace e with (ec - Zpos k) by lia.
    apply round_aux_shift. exact Hb.
  - (* a larger exponent: the mantissa is shifted left *)
    pose (k := Z.to_pos (e - ec)).
    assert (Hk : Zpos k = e - ec) by (unfold k; rewrite Z2Pos.id; lia).
    assert (Hm : mc = Pos.iter xO m k).
    { apply Pos2Z.inj. rewrite Zpos_iter_xO, Hk.
      replace (e - b) with ((e - ec) + (ec - b)) in Hval by lia.
      rewrite Z.pow_add_r, Z.mul_assoc in Hval by lia.
      apply Z.mul_reg_r in Hval; [symmetry; exact Hval | apply Z.pow_nonzero; lia]. }
    assert (Hd : Zpos (digits2_pos m) + e = Zpos (digits2_pos mc) + ec).
    { rewrite Hm, digits2_iter_xO. lia. }
    rewrite Hd, Hc. unfold shl_align.
    replace (ec - e) with (Zneg k) by lia.
    rewrite <- Hm. apply round_aux_canonical. exact Hb.
Qed.


Lemma digits2_bounds (m : positive) :
  2 ^ (Zpos (digits2_pos m) - 1) <= Zpos m < 2 ^ Zpos (digits2_pos m).
Proof.
  induction m as [m IH | m IH |]; cbn [digits2_pos].
  - rewrite Pos2Z.inj_succ. change (Zpos m~1) with (2 * Zpos m + 1).
    replace (Z.succ (Zpos (digits2_pos m)) - 1)
      with (Z.succ (Zpos (digits2_pos m) - 1)) by lia.
    rewrite !Z.pow_succ_r by lia. lia.
  - rewrite Pos2Z.inj_succ. change (Zpos m~0) with (2 * Zpos m).
    replace (Z.succ (Zpos (digits2_pos m)) - 1)
      with (Z.succ (Zpos (digits2_pos m) - 1)) by lia.
    rewrite !Z.pow_succ_r by lia. lia.
  - simpl. lia.
Qed.

Lemma bounded_intro (m : positive) (e : Z) :
  Z.max (Zpos (digits2_pos m) + e - 24) (-149) = e -> e <= 104 ->
  bounded prec emax m e = true.
Proof.
  intros Hc He. unfold bounded, canonical_mantissa.
  apply andb_true_intro. split.
  - apply Z.eqb_eq. rewrite fexp_32. exact Hc.
  - apply Z.leb_le. exact He.
Qed.

(** A positive integer below 2^24 has a canonical mantissa and an
    exponent between -23 and 0. *)
Lemma int_repr (q : positive) :
  Zpos q < 2 ^ 24 ->
  exists (mc : positive) (ec : Z),
    bounded prec emax mc ec = true /\ -23 <= ec <= 0
    /\ Zpos mc = Zpos q * 2 ^ (- ec).
Proof.
  intro Hq. pose proof (digits2_bounds q) as [Hlo Hhi].
  assert (Hd : Zpos (digits2_pos q) <= 24).
  { destruct (Z.le_gt_cases (Zpos (digits2_pos q)) 24) as [H | H]; [exact H |].
    exfalso. assert (2 ^ 24 <= 2 ^ (Zpos (digits2_pos q) - 1))
      by (apply Z.pow_le_mono_r; lia). lia. }
  destruct (Z.eq_dec (Zpos (digits2_pos q)) 24) as [H24 | Hlt].
  - exists q, 0. split; [| split].
    + apply bounded_intro; lia.
    + lia.
    + simpl. lia.
  - pose (k := Z.to_pos (24 - Zpos (digits2_pos q))).
    assert (Hk : Zpos k = 24 - Zpos (digits2_pos q))
      by (unfold k; rewrite Z2Pos.id; lia).
    exists (Pos.iter xO q k), (- Zpos k). split; [| split].
    + apply bounded_intro; [rewrite digits2_iter_xO |]; lia.
    + lia.
    + rewrite Zpos_iter_xO, Z.opp_involutive. reflexivity.
Qed.

Lemma of_int_pos (q mc : positive) (ec : Z) :
  bounded prec emax mc ec = true -> ec <= 0 ->
  Zpos mc = Zpos q * 2 ^ (- ec) ->
  of_int (Zpos q) = S754_finite false mc ec.
Proof.
  intros Hb Hec Hval. unfold of_int, binary_normalize.
  apply (round_same_value false q mc 0 ec ec Hb); try lia.
  rewrite Z.sub_diag, Z.pow_0_r, Z.mul_1_r, Z.sub_0_l. symmetry. exact Hval.
Qed.

Lemma of_int_neg (q mc : positive) (ec : Z) :
  bounded prec emax mc ec = true -> ec <= 0 ->
  Zpos mc = Zpos q * 2 ^ (- ec) ->
  of_int (Zneg q) = S754_finite true mc ec.
Proof.
  intros Hb Hec Hval. unfold of_int, binary_normalize.
  apply (round_same_value true q mc 0 ec ec Hb); try lia.
  rewrite Z.sub_diag, Z.pow_0_r, Z.mul_1_r, Z.sub_0_l. symmetry. exact Hval.
Qed.

(** The shape of the conversion of an integer of magnitude below
    2^24: zero, or its sign with a canonical mantissa and an exponent
    that make its magnitude. *)
Lemma of_int_shape (n : Z) :
  exact_int n ->
  (n = 0 /\ of_int n = zero)
  \/ exists (mc : positive) (ec : Z),
       n <> 0 /\ bounded prec emax mc ec = true /\ -23 <= ec <= 0
       /\ Zpos mc = Z.abs n * 2 ^ (- ec)
       /\ of_int n = S754_finite (n <? 0) mc ec.
Proof.
  unfold exact_int. intro Hn. destruct n as [| q | q].
  - left. split; reflexivity.
  - right. destruct (int_repr q Hn) as (mc & ec & Hb & Hec & Hval).
    exists mc, ec.
    split; [discriminate | split; [exact Hb | split; [exact Hec | split]]].
    + exact Hval.
    + apply of_int_pos; [exact Hb | lia | exact Hval].
  - right. destruct (int_repr q Hn) as (mc & ec & Hb & Hec & Hval).
    exists mc, ec.
    split; [discriminate | split; [exact Hb | split; [exact Hec | split]]].
    + exact Hval.
    + apply of_int_neg; [exact Hb | lia | exact Hval].
Qed.

(** An integer of magnitude below 2^24 survives the conversion to
    [float] and back. *)
Lemma to_int_of_int (n : Z) : exact_int n -> to_int (of_int n) = Some n.
Proof.
  intro Hn. destruct (of_int_shape n Hn)
    as [[-> ->] | (mc & ec & Hnz & Hb & Hec & Hval & ->)].
  - reflexivity.
  - unfold exact_int in Hn. unfold to_int, trunc.
    rewrite Z.shiftl_div_pow2 by lia. rewrite Hval.
    rewrite Z.div_mul by (apply Z.pow_nonzero; lia).
    assert (Hsame : cond_Zopp (n <? 0) (Z.abs n) = n).
    { unfold cond_Zopp. destruct (Z.ltb_spec n 0); lia. }
    rewrite Hsame.
    replace ((INT_MIN <=? n) && (n <=? INT_MAX))%bool with true; [reflexivity |].
    symmetry. apply andb_true_intro. unfold INT_MIN, INT_MAX.
    split; apply Z.leb_le; lia.
Qed.


Lemma shl_align_value (m : positive) (e ez : Z) :
  ez <= e -> Zpos (fst (shl_align m e ez)) = Zpos m * 2 ^ (e - ez).
Proof.
  intro Hle. unfold shl_align. destruct (ez - e) as [| d | d] eqn:Hd.
  - replace (e - ez) with 0 by lia. simpl. lia.
  - lia.
  - cbn [fst]. rewrite Zpos_iter_xO. replace (e - ez) with (Zpos d) by lia.
    reflexivity.
Qed.

Lemma signed_abs (n : Z) : cond_Zopp (n <? 0) (Z.abs n) = n.
Proof. unfold cond_Zopp. destruct (Z.ltb_spec n 0); lia. Qed.

Lemma cond_Zopp_mul (s : bool) (a b : Z) :
  cond_Zopp s (a * b) = cond_Zopp s a * b.
Proof. destruct s; simpl; ring. Qed.

(** Normalising an integer of magnitude below 2^24 written with [k]
    extra low zero bits gives its conversion. *)
Lemma normalize_int (n k : Z) :
  exact_int n -> 0 <= k ->
  binary_normalize prec emax (n * 2 ^ k) (- k) false = of_int n.
Proof.
  intros Hn Hk.
  destruct (of_int_shape n Hn)
    as [[-> ->] | (mc & ec & Hnz & Hb & Hec & Hval & ->)].
  - reflexivity.
  - assert (Hpow : 0 < 2 ^ k) by (apply Z.pow_pos_nonneg; lia).
    assert (Hsame : forall p : positive,
               Zpos p = Z.abs n * 2 ^ k ->
               Zpos p * 2 ^ (- k - (- k - 23)) = Zpos mc * 2 ^ (ec - (- k - 23))).
    { intros p Hp. rewrite Hp, Hval.
      replace (- k - (- k - 23)) with 23 by lia.
      replace (ec - (- k - 23)) with (ec + k + 23) by lia.
      rewrite <- !Z.mul_assoc. f_equal.
      rewrite <- !Z.pow_add_r by lia. f_equal. lia. }
    unfold binary_normalize. destruct (n * 2 ^ k) as [| p | p] eqn:Hprod.
    + exfalso. apply Z.eq_mul_0 in Hprod. lia.
    + assert (Hpos : 0 < n) by nia.
      replace (n <? 0) with false by (symmetry; apply Z.ltb_ge; lia).
      apply (round_same_value false p mc (- k) ec (- k - 23) Hb); try lia.
      apply Hsame. rewrite <- Hprod. f_equal. lia.
    + assert (Hneg : n < 0) by nia.
      replace (n <? 0) with true by (symmetry; apply Z.ltb_lt; lia).
      apply (round_same_value true p mc (- k) ec (- k - 23) Hb); try lia.
      apply Hsame. replace (Z.abs n) with (- n) by lia.
      rewrite Z.mul_opp_l, Hprod. reflexivity.
Qed.

(** Integers add exactly while the sum stays below 2^24 in
    magnitude. *)
Lemma add_of_int (a b : Z) :
  exact_int a -> exact_int b -> exact_int (a + b) ->
  add (of_int a) (of_int b) = of_int (a + b).
Proof.
  intros Ha Hb Hab.
  destruct (of_int_shape a Ha)
    as [[-> Hza] | (ma & ea & Hnza & Hba & Hea & Hvala & Hra)];
  destruct (of_int_shape b Hb)
    as [[-> Hzb] | (mb & eb & Hnzb & Hbb & Heb & Hvalb & Hrb)].
  - reflexivity.
  - change (0 + b) with b. rewrite Hza, Hrb. reflexivity.
  - rewrite Z.add_0_r, Hzb, Hra. reflexivity.
  - rewrite Hra, Hrb. unfold add, SFadd.
    set (ez := Z.min ea eb).
    rewrite !shl_align_value by (unfold ez; lia).
    rewrite Hvala, Hvalb.
    rewrite <- !Z.mul_assoc, <- !Z.pow_add_r by (unfold ez; lia).
    replace (- ea + (ea - ez)) with (- ez) by lia.
    replace (- eb + (eb - ez)) with (- ez) by lia.
    rewrite !cond_Zopp_mul, !signed_abs, <- Z.mul_add_distr_r.
    replace ez with (- - ez) at 2 by lia.
    apply normalize_int; [exact Hab | unfold ez; lia].
Qed.

(** Multiplying by 1 changes no well-formed value. *)
Lemma mul_one (a : float) : valid a = true -> mul a one = a.
Proof.
  destruct a as [s | s | | s m e]; intro Hv.
  - unfold mul, one, SFmul. rewrite xorb_false_r. reflexivity.
  - unfold mul, one, SFmul. rewrite xorb_false_r. reflexivity.
  - reflexivity.
  - unfold mul, one, SFmul. rewrite xorb_false_r.
    replace (Zpos (m * 8388608)) with (Zpos (Pos.iter xO m 23))
      by (rewrite Pos.mul_comm; reflexivity).
    change (e + -23) with (e - Zpos 23).
    apply round_aux_shift. exact Hv.
Qed.

(** A finite value minus itself is +0. *)
Lemma sub_self (a : float) : is_finite a = true -> sub a a = zero.
Proof.
  destruct a as [s | s | | s m e]; intro Hf; try discriminate Hf.
  - destruct s; reflexivity.
  - unfold sub, SFsub. rewrite Z.sub_diag. reflexivity.
Qed.

(** A finite value other than zero divided by itself is 1. *)
Lemma div_self (a : float) : is_nonzero_finite a = true -> div a a = one.
Proof.
  destruct a as [s | s | | s m e]; intro Hf; try discriminate Hf.
  unfold div, SFdiv, SFdiv_core_binary.
  rewrite !Z.sub_diag.
  change (Z.min (fexp prec emax 0) 0) with (-24).
  change (0 - -24) with 24.
  cbn [Zdigits2].
  rewrite Z.shiftl_mul_pow2 by lia.
  assert (Hq : Z.div_eucl (Zpos m * 2 ^ 24) (Zpos m) = (2 ^ 24, 0)).
  { pose proof (Z.div_eucl_eq (Zpos m * 2 ^ 24) (Zpos m)) as Heq.
    pose proof (Z.mod_pos_bound (Zpos m * 2 ^ 24) (Zpos m)) as Hbound.
    assert (Hdiv : (Zpos m * 2 ^ 24) / Zpos m = 2 ^ 24)
      by (rewrite Z.mul_comm; apply Z.div_mul; lia).
    assert (Hmod : (Zpos m * 2 ^ 24) mod Zpos m = 0)
      by (rewrite Z.mul_comm; apply Z.mod_mul; lia).
    unfold Z.div in Hdiv. unfold Z.modulo in Hmod.
    destruct (Z.div_eucl (Zpos m * 2 ^ 24) (Zpos m)) as [q r].
    rewrite Hdiv, Hmod. reflexivity. }
  rewrite Hq.
  assert (Hloc : new_location (Zpos m) 0 = loc_Exact).
  { unfold new_location. destruct (Z.even (Zpos m)); reflexivity. }
  rewrite Hloc. destruct s; reflexivity.
Qed.

(** *** Every rounding returns a well-formed value *)

Lemma shr_1_half (mrs : shr_record) :
  0 <= shr_m mrs -> shr_m (shr_1 mrs) = shr_m mrs / 2.
Proof.
  destruct mrs as [m r s]; cbn [shr_m]. intro Hm.
  destruct m as [| p | p]; [reflexivity | | lia].
  destruct p as [p | p |]; cbn [shr_1 shr_m].
  - change (Zpos p~1) with (2 * Zpos p + 1).
    apply (Z.div_unique_pos _ _ _ 1); lia.
  - change (Zpos p~0) with (2 * Zpos p).
    apply (Z.div_unique_pos _ _ _ 0); lia.
  - reflexivity.
Qed.

Lemma shr_floor (k : positive) (mrs : shr_record) :
  0 <= shr_m mrs ->
  shr_m (iter_pos shr_1 k mrs) = shr_m mrs / 2 ^ Zpos k.
Proof.
  intro Hm. rewrite iter_pos_iter.
  induction k as [| k IH] using Pos.peano_ind.
  - cbn [Pos.iter]. rewrite shr_1_half by exact Hm. reflexivity.
  - rewrite Pos.iter_succ, shr_1_half.
    + rewrite IH, Pos2Z.inj_succ, Z.pow_succ_r by lia.
      rewrite Z.div_div by (try apply Z.pow_pos_nonneg; lia).
      f_equal. ring.
    + rewrite IH. apply Z.div_pos; [exact Hm | apply Z.pow_pos_nonneg; lia].
Qed.

Lemma Zdigits2_bounds (m : Z) :
  0 < m -> 2 ^ (Zdigits2 m - 1) <= m < 2 ^ Zdigits2 m.
Proof.
  destruct m as [| p | p]; intro Hm; try lia.
  cbn [Zdigits2]. apply digits2_bounds.
Qed.

Lemma Zdigits2_unique (m d : Z) :
  0 < m -> 2 ^ (d - 1) <= m < 2 ^ d -> Zdigits2 m = d.
Proof.
  intros Hm [Hlo Hhi]. destruct (Zdigits2_bounds m Hm) as [Hlo' Hhi'].
  assert (Hd : 0 < Zdigits2 m) by (destruct m; cbn; lia).
  assert (Hd' : 0 < d).
  { destruct (Z.lt_ge_cases 0 d) as [H | H]; [exact H |].
    exfalso. assert (2 ^ d <= 1).
    { destruct (Z.eq_dec d 0) as [-> | Hne]; [simpl; lia |].
      rewrite Z.pow_neg_r by lia. lia. }
    lia. }
  destruct (Z.lt_trichotomy (Zdigits2 m) d) as [Hlt | [Heq | Hgt]];
    [exfalso | exact Heq | exfalso].
  - assert (2 ^ Zdigits2 m <= 2 ^ (d - 1)) by (apply Z.pow_le_mono_r; lia). lia.
  - assert (2 ^ d <= 2 ^ (Zdigits2 m - 1)) by (apply Z.pow_le_mono_r; lia). lia.
Qed.

Lemma digits_floor (m k : Z) :
  0 < m -> 0 <= k < Zdigits2 m -> 
  0 < m / 2 ^ k /\ Zdigits2 (m / 2 ^ k) = Zdigits2 m - k.
Proof.
  intros Hm Hk. destruct (Zdigits2_bounds m Hm) as [Hlo Hhi].
  assert (Hpow : 0 < 2 ^ k) by (apply Z.pow_pos_nonneg; lia).
  assert (Hlo' : 2 ^ (Zdigits2 m - k - 1) <= m / 2 ^ k).
  { apply Z.div_le_lower_bound; [exact Hpow |].
    rewrite <- Z.pow_add_r by lia.
    replace (k + (Zdigits2 m - k - 1)) with (Zdigits2 m - 1) by lia. exact Hlo. }
  assert (Hhi' : m / 2 ^ k < 2 ^ (Zdigits2 m - k)).
  { apply Z.div_lt_upper_bound; [exact Hpow |].
    rewrite <- Z.pow_add_r by lia.
    replace (k + (Zdigits2 m - k)) with (Zdigits2 m) by lia. exact Hhi. }
  assert (Hpos : 0 < m / 2 ^ k).
  { assert (0 < 2 ^ (Zdigits2 m - k - 1)) by (apply Z.pow_pos_nonneg; lia). lia. }
  split; [exact Hpos |].
  apply Zdigits2_unique; [exact Hpos |]. split; assumption.
Qed.

Lemma floor_vanishes (m k : Z) :
  0 < m -> Zdigits2 m <= k -> m / 2 ^ k = 0.
Proof.
  intros Hm Hk. destruct (Zdigits2_bounds m Hm) as [_ Hhi].
  apply Z.div_small. split; [lia |].
  assert (2 ^ Zdigits2 m <= 2 ^ k) by (apply Z.pow_le_mono_r; lia). lia.
Qed.

Lemma round_nearest_even_cases (m : Z) (l : location) :
  round_nearest_even m l = m \/ round_nearest_even m l = m + 1.
Proof.
  destruct l as [| c]; [left; reflexivity |].
  destruct c; cbn [round_nearest_even].
  - destruct (Z.even m); [left | right]; reflexivity.
  - left; reflexivity.
  - right; reflexivity.
Qed.

Lemma binary_round_aux_finish (s : bool) (m e : Z) (l : location) :
  binary_round_aux prec emax s m e l
  = finish s (shr_fexp prec emax
                (round_nearest_even (shr_m (fst (shr_fexp prec emax m e l)))
                   (loc_of_shr_record (fst (shr_fexp prec emax m e l))))
                (snd (shr_fexp prec emax m e l)) loc_Exact).
Proof.
  unfold binary_round_aux, finish.
  destruct (shr_fexp prec emax m e l) as [mrs' e']. cbn [fst snd].
  destruct (shr_fexp prec emax _ e' loc_Exact) as [mrs'' e'']. reflexivity.
Qed.

Lemma shr_m_of_loc (m : Z) (l : location) : shr_m (shr_record_of_loc m l) = m.
Proof. destruct l as [| c]; [| destruct c]; reflexivity. Qed.

(** After the first shift, rounding either keeps the exponent
    canonical or carries into a 25th bit. *)
Lemma carry_cases (m1 e1 : Z) (l : location) :
  0 <= m1 ->
  (0 < m1 -> fexp prec emax (Zdigits2 m1 + e1) = e1) ->
  (m1 = 0 -> e1 = -149) ->
  let m2 := round_nearest_even m1 l in
  m2 = 0
  \/ (0 < m2 /\ fexp prec emax (Zdigits2 m2 + e1) = e1)
  \/ (m2 = 2 ^ 24 /\ fexp prec emax (25 + e1) = e1 + 1).
Proof.
  intros Hm1 Hpos Hzero; cbv zeta.
  destruct (round_nearest_even_cases m1 l) as [-> | ->].
  - destruct (Z.eq_dec m1 0) as [-> | Hne]; [left; reflexivity |].
    right; left. split; [lia | apply Hpos; lia].
  - destruct (Z.eq_dec m1 0) as [-> | Hne].
    + right; left. rewrite (Hzero eq_refl). split; reflexivity.
    + assert (H1 : 0 < m1) by lia. specialize (Hpos H1).
      destruct (Zdigits2_bounds m1 H1) as [Hlo Hhi].
      assert (Hd : 0 < Zdigits2 m1) by (destruct m1; cbn; lia).
      rewrite fexp_32 in Hpos.
      destruct (Z.eq_dec (m1 + 1) (2 ^ Zdigits2 m1)) as [Hcarry | Hsame].
      * assert (Hd2 : Zdigits2 (m1 + 1) = Zdigits2 m1 + 1).
        { apply Zdigits2_unique; [lia |].
          replace (Zdigits2 m1 + 1 - 1) with (Zdigits2 m1) by lia.
          rewrite Z.pow_add_r by lia. simpl (2 ^ 1). lia. }
        destruct (Z.le_gt_cases (-149) (Zdigits2 m1 + e1 - 24)) as [Hn | Hs].
        -- right; right. assert (Zdigits2 m1 = 24) by lia.
           split; [congruence | rewrite fexp_32; lia].
        -- right; left. split; [lia |]. rewrite Hd2, fexp_32. lia.
      * right; left. split; [lia |].
        replace (Zdigits2 (m1 + 1)) with (Zdigits2 m1);
          [rewrite fexp_32; exact Hpos |].
        symmetry. apply Zdigits2_unique; lia.
Qed.

Lemma second_stage (s : bool) (m2 e1 : Z) :
  m2 = 0
  \/ (0 < m2 /\ fexp prec emax (Zdigits2 m2 + e1) = e1)
  \/ (m2 = 2 ^ 24 /\ fexp prec emax (25 + e1) = e1 + 1) ->
  valid (finish s (shr_fexp prec emax m2 e1 loc_Exact)) = true
  /\ (0 < m2 -> is_zero (finish s (shr_fexp prec emax m2 e1 loc_Exact)) = false).
Proof.
  intros [-> | [[Hpos Hc] | [-> Hc]]].
  - split; [| lia]. unfold shr_fexp, shr. cbn [Zdigits2 shr_record_of_loc].
    destruct (fexp prec emax (0 + e1) - e1) as [| k | k]; try reflexivity.
    unfold finish; cbn [fst snd]. rewrite shr_floor by (cbn; lia). reflexivity.
  - unfold shr_fexp. rewrite Hc, Z.sub_diag. cbn [shr shr_record_of_loc].
    unfold finish; cbn [fst snd shr_m].
    destruct m2 as [| p | p]; try lia.
    destruct (Z.leb_spec e1 (emax - prec)) as [Hle | Hgt].
    + split; [| reflexivity]. unfold valid, valid_binary, bounded, canonical_mantissa.
      apply andb_true_intro. split; [apply Z.eqb_eq; exact Hc | apply Z.leb_le; exact Hle].
    + split; reflexivity.
  - unfold shr_fexp. change (Zdigits2 (2 ^ 24)) with 25. rewrite Hc.
    replace (e1 + 1 - e1) with 1 by lia.
    unfold finish; cbn.
    destruct (Z.leb_spec (e1 + 1) 104) as [Hle | Hgt].
    + split; [| reflexivity]. unfold valid, valid_binary, bounded, canonical_mantissa.
      apply andb_true_intro. split; [apply Z.eqb_eq | apply Z.leb_le; exact Hle].
      change (Z.pos (digits2_pos 8388608)) with 24.
      replace (24 + (e1 + 1)) with (25 + e1) by lia. exact Hc.
    + split; reflexivity.
Qed.

(** Rounding returns a well-formed value whenever the exponent it
    starts from is not above the canonical one; the value is not a zero
    when the first shift leaves a bit of the mantissa. *)
Lemma round_aux_valid (s : bool) (m : positive) (e : Z) (l : location) :
  e <= fexp prec emax (Zpos (digits2_pos m) + e) ->
  valid (binary_round_aux prec emax s (Zpos m) e l) = true
  /\ (fexp prec emax (Zpos (digits2_pos m) + e) - e < Zpos (digits2_pos m) ->
      is_zero (binary_round_aux prec emax s (Zpos m) e l) = false).
Proof.
  intro Hpre. rewrite binary_round_aux_finish.
  set (D := Zpos (digits2_pos m) + e) in *.
  assert (Hmin : -149 <= fexp prec emax D) by (rewrite fexp_32; lia).
  destruct (fexp prec emax D - e) as [| k | k] eqn:Hn; try lia.
  - (* no shift *)
    assert (Hfirst : shr_fexp prec emax (Zpos m) e l
                     = (shr_record_of_loc (Zpos m) l, e)).
    { unfold shr_fexp. cbn [Zdigits2]. fold D. rewrite Hn. reflexivity. }
    rewrite Hfirst. cbn [fst snd]. rewrite shr_m_of_loc.
    assert (He : fexp prec emax D = e) by lia.
    destruct (second_stage s
                (round_nearest_even (Zpos m) (loc_of_shr_record (shr_record_of_loc (Zpos m) l))) e)
      as [Hv Hz].
    + apply carry_cases; [lia | intros _; exact He | lia].
    + split; [exact Hv |]. intros _. apply Hz.
      destruct (round_nearest_even_cases (Zpos m)
                  (loc_of_shr_record (shr_record_of_loc (Zpos m) l))) as [-> | ->]; lia.
  - (* a shift by k *)
    assert (Hfirst : shr_fexp prec emax (Zpos m) e l
                     = (iter_pos shr_1 k (shr_record_of_loc (Zpos m) l), e + Zpos k)).
    { unfold shr_fexp. cbn [Zdigits2]. fold D. rewrite Hn. reflexivity. }
    rewrite Hfirst. cbn [fst snd].
    set (mrs := iter_pos shr_1 k (shr_record_of_loc (Zpos m) l)).
    assert (Hm1 : shr_m mrs = Zpos m / 2 ^ Zpos k).
    { unfold mrs. rewrite shr_floor; rewrite shr_m_of_loc; lia. }
    assert (He : e + Zpos k = fexp prec emax D) by lia.
    destruct (Z.lt_ge_cases (Zpos k) (Zpos (digits2_pos m))) as [Hlt | Hge].
    + destruct (digits_floor (Zpos m) (Zpos k)) as [Hpos Hd]; [lia | cbn [Zdigits2]; lia |].
      cbn [Zdigits2] in Hd.
      destruct (second_stage s (round_nearest_even (shr_m mrs) (loc_of_shr_record mrs))
                  (e + Zpos k)) as [Hv Hz].
      * apply carry_cases; rewrite Hm1; [lia | | lia].
        intros _. rewrite Hd.
        replace (Zpos (digits2_pos m) - Zpos k + (e + Zpos k)) with D by (unfold D; lia).
        symmetry; exact He.
      * split; [exact Hv |]. intros _. apply Hz.
        destruct (round_nearest_even_cases (shr_m mrs) (loc_of_shr_record mrs))
          as [-> | ->]; lia.
    + assert (H0 : shr_m mrs = 0).
      { rewrite Hm1. apply floor_vanishes; [lia | cbn [Zdigits2]; lia]. }
      destruct (second_stage s (round_nearest_even (shr_m mrs) (loc_of_shr_record mrs))
                  (e + Zpos k)) as [Hv _].
      * apply carry_cases; rewrite H0; [lia | lia |].
        intros _. rewrite fexp_32 in He. unfold D in He. lia.
      * split; [exact Hv | lia].
Qed.

(** [binary_round] returns a well-formed value, whatever the mantissa
    and the exponent it is given. *)
Lemma binary_round_valid (s : bool) (m : positive) (e : Z) :
  valid (binary_round prec emax s m e) = true
  /\ (-149 < e -> is_zero (binary_round prec emax s m e) = false).
Proof.
  unfold binary_round.
  set (D := Zpos (digits2_pos m) + e).
  unfold shl_align. destruct (fexp prec emax D - e) as [| k | k] eqn:Hn.
  - destruct (round_aux_valid s m e loc_Exact) as [Hv Hz]; [fold D; lia |].
    split; [exact Hv |]. intros _. apply Hz. fold D. lia.
  - destruct (round_aux_valid s m e loc_Exact) as [Hv Hz]; [fold D; lia |].
    split; [exact Hv |]. intro He. apply Hz. fold D.
    rewrite fexp_32 in *. lia.
  - assert (HD : Zpos (digits2_pos (Pos.iter xO m k)) + fexp prec emax D = D).
    { rewrite digits2_iter_xO. unfold D in *. lia. }
    destruct (round_aux_valid s (Pos.iter xO m k) (fexp prec emax D) loc_Exact)
      as [Hv Hz]; [rewrite HD; lia |].
    split; [exact Hv |]. intros _. apply Hz. rewrite HD. lia.
Qed.

Lemma sub_valid (a b : float) :
  valid a = true -> valid b = true -> valid (sub a b) = true.
Proof.
  intros Ha Hb.
  destruct a as [s | s | | s m e]; destruct b as [t | t | | t n f];
    try reflexivity; try (destruct s, t; reflexivity);
    try exact Ha; try exact Hb.
  unfold sub, SFsub, binary_normalize.
  destruct (_ - _) as [| p | p]; [reflexivity | |]; apply binary_round_valid.
Qed.

Lemma of_int_not_negative_zero (n : Z) : of_int n <> S754_zero true.
Proof.
  unfold of_int, binary_normalize. destruct n as [| p | p].
  - discriminate.
  - destruct (binary_round_valid false p 0) as [_ Hz].
    intro Heq. rewrite Heq in Hz. specialize (Hz eq_refl). discriminate Hz.
  - destruct (binary_round_valid true p 0) as [_ Hz].
    intro Heq. rewrite Heq in Hz. specialize (Hz eq_refl). discriminate Hz.
Qed.

(** Adding two numbers that are the same to a value that is not -0. *)
Lemma add_same (c a b : float) :
  c <> S754_zero true -> same_number a b -> add c a = add c b.
Proof.
  intros Hc [-> | [Ha Hb]]; [reflexivity |].
  destruct a as [s | s | | s m e]; try discriminate Ha.
  destruct b as [t | t | | t n f]; try discriminate Hb.
  destruct c as [u | u | | u k h]; try reflexivity.
  destruct u; [contradiction Hc; reflexivity |].
  destruct s, t; reflexivity.
Qed.

(** Zeros through the four operations. *)
Lemma zero_mul (a c : float) :
  is_zero a = true -> is_finite c = true -> is_zero (mul a c) = true.
Proof.
  destruct a as [s | s | | s m e]; intro Ha; try discriminate Ha.
  destruct c as [t | t | | t n f]; intro Hc; try discriminate Hc; reflexivity.
Qed.

Lemma zero_sub (a b : float) :
  is_zero a = true -> is_zero b = true -> is_zero (sub a b) = true.
Proof.
  destruct a as [s | s | | s m e]; intro Ha; try discriminate Ha.
  destruct b as [t | t | | t n f]; intro Hb; try discriminate Hb.
  destruct s, t; reflexivity.
Qed.

Lemma zero_add (a b : float) :
  is_zero a = true -> is_zero b = true -> is_zero (add a b) = true.
Proof.
  destruct a as [s | s | | s m e]; intro Ha; try discriminate Ha.
  destruct b as [t | t | | t n f]; intro Hb; try discriminate Hb.
  destruct s, t; reflexivity.
Qed.

Lemma zero_add_l (a b : float) :
  is_zero a = true -> is_nonzero_finite b = true -> add a b = b.
Proof.
  destruct a as [s | s | | s m e]; intro Ha; try discriminate Ha.
  destruct b as [t | t | | t n f]; intro Hb; try discriminate Hb.
  reflexivity.
Qed.

Lemma of_int_add_zero (n : Z) (a : float) :
  exact_int n -> is_zero a = true -> add (of_int n) a = of_int n.
Proof.
  intros Hn Ha.
  destruct a as [s | s | | s m e]; try discriminate Ha.
  destruct (of_int_shape n Hn) as [[_ ->] | (mc & ec & _ & _ & _ & _ & ->)].
  - destruct s; reflexivity.
  - reflexivity.
Qed.

(** An infinity or a NaN. *)
Lemma not_finite_mul (a b : float) :
  is_finite b = false -> is_finite (mul a b) = false.
Proof.
  destruct b as [t | t | | t n f]; intro Hb; try discriminate Hb;
    destruct a as [s | s | | s m e]; reflexivity.
Qed.

Lemma not_finite_add (a b : float) :
  is_finite b = false -> is_finite (add a b) = false.
Proof.
  destruct b as [t | t | | t n f]; intro Hb; try discriminate Hb;
    destruct a as [s | s | | s m e]; try reflexivity.
  destruct s, t; reflexivity.
Qed.

Lemma not_finite_div_zero (a b : float) :
  is_zero b = true -> is_finite (div a b) = false.
Proof.
  destruct b as [t | t | | t n f]; intro Hb; try discriminate Hb.
  destruct a as [s | s | | s m e]; reflexivity.
Qed.

Lemma to_int_not_finite (a : float) : is_finite a = false -> to_int a = None.
Proof. destruct a; intro H; try discriminate H; reflexivity. Qed.

(** *** The rotation by an angle whose cosine is 1 and sine is 0 *)

Lemma same_number_refl (a : float) : same_number a a.
Proof. left. reflexivity. Qed.

Lemma same_number_trans (a b c : float) :
  same_number a b -> same_number b c -> same_number a c.
Proof.
  intros [-> | [Ha Hb]] [-> | [Hb' Hc]].
  - left. reflexivity.
  - right. split; assumption.
  - right. split; assumption.
  - right. split; assumption.
Qed.

Lemma same_number_plain (a b : float) :
  same_number a b -> valid b = true -> is_finite b = true ->
  valid a = true /\ is_finite a = true.
Proof.
  intros [-> | [Ha _]] Hv Hf.
  - split; assumption.
  - destruct a; try discriminate Ha. split; reflexivity.
Qed.

(** [a * 1 - b * 0] is [a]. *)
Lemma rest_minus (a b : float) :
  valid a = true -> is_finite a = true -> is_finite b = true ->
  same_number (sub (mul a one) (mul b zero)) a.
Proof.
  intros Hv Ha Hb. rewrite (mul_one a Hv).
  destruct b as [t | t | | t n f]; try discriminate Hb;
    destruct a as [s | s | | s m e]; try discriminate Ha.
  - right. split; [destruct s, t |]; reflexivity.
  - left. reflexivity.
  - right. split; [destruct s, t |]; reflexivity.
  - left. reflexivity.
Qed.

(** [a * 0 + b * 1] is [b]. *)
Lemma rest_plus (a b : float) :
  is_finite a = true -> valid b = true -> is_finite b = true ->
  same_number (add (mul a zero) (mul b one)) b.
Proof.
  intros Ha Hv Hb. rewrite (mul_one b Hv).
  destruct a as [s | s | | s m e]; try discriminate Ha;
    destruct b as [t | t | | t n f]; try discriminate Hb.
  - right. split; [destruct s, t |]; reflexivity.
  - left. reflexivity.
  - right. split; [destruct s, t |]; reflexivity.
  - left. reflexivity.
Qed.

(** The factor does not see the sign of a zero depth. *)
Lemma factor_same (a b f : float) :
  same_number a b -> div f (add a f) = div f (add b f).
Proof.
  intros [-> | [Ha Hb]]; [reflexivity |].
  destruct a as [s | s | | s m e]; try discriminate Ha.
  destruct b as [t | t | | t n g]; try discriminate Hb.
  destruct f as [u | u | | u k h]; try reflexivity.
  destruct s, t, u; reflexivity.
Qed.

Lemma mul_same (a b f : float) :
  same_number a b -> same_number (mul a f) (mul b f).
Proof.
  intros [-> | [Ha Hb]]; [left; reflexivity |].
  destruct a as [s | s | | s m e]; try discriminate Ha.
  destruct b as [t | t | | t n g]; try discriminate Hb.
  destruct f as [u | u | | u k h].
  - right. split; reflexivity.
  - left. reflexivity.
  - left. reflexivity.
  - right. split; reflexivity.
Qed.

Lemma add_zero_same (a : float) : same_number (add a zero) a.
Proof.
  destruct a as [s | s | | s m e].
  - right. split; [destruct s |]; reflexivity.
  - left. reflexivity.
  - left. reflexivity.
  - left. reflexivity.
Qed.

End F32Facts.

(** ** The input handler *)

Section InputFacts.

Lemma recognized_cases (P : Z -> Prop) :
  P SDLK_w -> P SDLK_a -> P SDLK_s -> P SDLK_d -> P SDLK_q -> P SDLK_e ->
  P SDLK_LEFT -> P SDLK_RIGHT -> P SDLK_UP -> P SDLK_DOWN ->
  forall sym, In sym recognized_keys -> P sym.
Proof.
  intros Hw Ha Hs Hd Hq He Hl Hr Hu Hdn sym Hin.
  unfold recognized_keys in Hin; simpl in Hin.
  repeat (destruct Hin as [<- | Hin]; [assumption |]).
  contradiction.
Qed.

Lemma unrecognized_switch (sym : Z) (pressed : bool) (w : World) :
  ~ In sym recognized_keys -> on_key sym pressed w = w.
Proof.
  intros Hout. unfold on_key.
  repeat match goal with
  | |- context [Z.eqb sym ?c] =>
      destruct (Z.eqb_spec sym c) as [-> | _];
      [ exfalso; apply Hout; unfold recognized_keys; simpl; tauto | ]
  end.
  reflexivity.
Qed.

Lemma handle_key_event (sym : Z) (pressed : bool) (w : World) :
  handle_event (key_event sym pressed) w = on_key sym pressed w.
Proof. destruct pressed; reflexivity. Qed.

Lemma recognized_transition (sym : Z) (pressed : bool) (w : World) :
  In sym recognized_keys ->
  let w' := on_key sym pressed w in
  flag sym (keys w') = pressed
  /\ cout w' = (cout w ++ [transition_line sym pressed])%list
  /\ (forall other, other <> sym -> flag other (keys w') = flag other (keys w))
  /\ quit w' = quit w /\ camera w' = camera w
  /\ yaw w' = yaw w /\ pitch w' = pitch w.
Proof.
  revert sym.
  apply recognized_cases; destruct pressed; cbn;
    (repeat split; try reflexivity);
    intros other Hother; unfold flag;
    repeat match goal with
    | |- context [Z.eqb other ?c] =>
        destruct (Z.eqb_spec other c) as [-> | _]; [ try reflexivity; try congruence | ]
    end; reflexivity.
Qed.

End InputFacts.

Section PollFacts.

Lemma poll_events_app (before after : list SDL_Event) (w : World) :
  poll_events (before ++ after) w = poll_events after (poll_events before w).
Proof.
  revert w. induction before as [| e before IH]; intro w; simpl.
  - reflexivity.
  - apply IH.
Qed.

(** The [switch] touches one key flag and the log, nothing else. *)
Lemma on_key_frame (sym : Z) (pressed : bool) (w : World) :
  camera (on_key sym pressed w) = camera w
  /\ yaw (on_key sym pressed w) = yaw w
  /\ pitch (on_key sym pressed w) = pitch w
  /\ cube1 (on_key sym pressed w) = cube1 w
  /\ quit (on_key sym pressed w) = quit w
  /\ calls (on_key sym pressed w) = calls w.
Proof.
  unfold on_key.
  repeat match goal with
  | |- context [Z.eqb sym ?c] => destruct (Z.eqb sym c)
  end; repeat split; reflexivity.
Qed.

Lemma handle_event_frame (e : SDL_Event) (w : World) :
  camera (handle_event e w) = camera w
  /\ yaw (handle_event e w) = yaw w
  /\ pitch (handle_event e w) = pitch w
  /\ cube1 (handle_event e w) = cube1 w
  /\ quit (handle_event e w) = (quit w || is_quit e)%bool
  /\ calls (handle_event e w) = calls w.
Proof.
  destruct e as [| sym | sym |]; unfold handle_event.
  - simpl. rewrite orb_true_r. repeat split; reflexivity.
  - destruct (on_key_frame sym true w) as (Hc & Hy & Hp & Hcube & Hq & Hcalls).
    rewrite Hc, Hy, Hp, Hcube, Hq, Hcalls. simpl. rewrite orb_false_r.
    repeat split; reflexivity.
  - destruct (on_key_frame sym false w) as (Hc & Hy & Hp & Hcube & Hq & Hcalls).
    rewrite Hc, Hy, Hp, Hcube, Hq, Hcalls. simpl. rewrite orb_false_r.
    repeat split; reflexivity.
  - simpl. rewrite orb_false_r. repeat split; reflexivity.
Qed.

Lemma poll_events_frame (pending : list SDL_Event) (w : World) :
  camera (poll_events pending w) = camera w
  /\ yaw (poll_events pending w) = yaw w
  /\ pitch (poll_events pending w) = pitch w
  /\ cube1 (poll_events pending w) = cube1 w
  /\ quit (poll_events pending w) = (quit w || existsb is_quit pending)%bool
  /\ calls (poll_events pending w) = calls w.
Proof.
  revert w. induction pending as [| e pending IH]; intro w; simpl.
  - rewrite orb_false_r. repeat split; reflexivity.
  - destruct (IH (handle_event e w)) as (Hc & Hy & Hp & Hcube & Hq & Hcalls).
    destruct (handle_event_frame e w) as (Hc' & Hy' & Hp' & Hcube' & Hq' & Hcalls').
    rewrite Hc, Hy, Hp, Hcube, Hq, Hcalls, Hc', Hy', Hp', Hcube', Hq', Hcalls'.
    rewrite orb_assoc. repeat split; reflexivity.
Qed.

(** The key flags a poll leaves are a function of the key flags it
    finds. *)
Lemma on_key_keys (sym : Z) (pressed : bool) (v1 v2 : World) :
  keys v1 = keys v2 ->
  keys (on_key sym pressed v1) = keys (on_key sym pressed v2).
Proof.
  intro Hk. unfold on_key.
  repeat match goal with
  | |- context [Z.eqb sym ?c] => destruct (Z.eqb sym c)
  end;
    cbn [keys set_keys print]; rewrite ?Hk; reflexivity.
Qed.

Lemma handle_event_keys (e : SDL_Event) (v1 v2 : World) :
  keys v1 = keys v2 -> keys (handle_event e v1) = keys (handle_event e v2).
Proof.
  intro Hk. destruct e as [| s | s |].
  - exact Hk.
  - apply (on_key_keys s true). exact Hk.
  - apply (on_key_keys s false). exact Hk.
  - exact Hk.
Qed.

Lemma poll_events_keys (pending : list SDL_Event) (v1 v2 : World) :
  keys v1 = keys v2 -> keys (poll_events pending v1) = keys (poll_events pending v2).
Proof.
  revert v1 v2. induction pending as [| e rest IH]; intros v1 v2 Hk.
  - exact Hk.
  - cbn [poll_events]. apply IH. apply handle_event_keys. exact Hk.
Qed.

Lemma held_after_poll (pending : list SDL_Event) (w : World) :
  keys (poll_events pending w) = held_after pending (keys w).
Proof. unfold held_after. apply poll_events_keys. reflexivity. Qed.

Lemma existsb_is_quit (pending : list SDL_Event) :
  existsb is_quit pending = true <-> In SDL_QUIT pending.
Proof.
  rewrite existsb_exists. split.
  - intros [e [Hin He]]. destruct e; try discriminate. exact Hin.
  - intro Hin. exists SDL_QUIT. split; [exact Hin | reflexivity].
Qed.

End PollFacts.

(** Claim C9. For each of the ten recognized keys, from any state:
    handling key-down, key-up, key-down, key-up leaves the key's flag
    false and appends exactly the four lines pressed, released, pressed,
    released to the log; one transition of a recognized key sets its
    flag to the event's value and appends exactly one line; an event of
    any other key code leaves the whole state, flags and log, as it
    was. *)
Theorem key_transitions_logged :
  (forall sym w, In sym recognized_keys ->
     let w' := poll_events
                 [ SDL_KEYDOWN sym; SDL_KEYUP sym; SDL_KEYDOWN sym; SDL_KEYUP sym ] w in
     flag sym (keys w') = false
     /\ cout w' = (cout w ++ [ transition_line sym true; transition_line sym false;
                               transition_line sym true; transition_line sym false ])%list)
  /\ (forall sym pressed w, In sym recognized_keys ->
        let w' := handle_event (key_event sym pressed) w in
        flag sym (keys w') = pressed
        /\ cout w' = (cout w ++ [ transition_line sym pressed ])%list)
  /\ (forall sym pressed w, ~ In sym recognized_keys ->
        handle_event (key_event sym pressed) w = w).
Proof.
  split; [| split].
  - intros sym w Hin. cbv zeta.
    change (poll_events _ w) with
      (on_key sym false (on_key sym true (on_key sym false (on_key sym true w)))).
    set (w1 := on_key sym true w).
    set (w2 := on_key sym false w1).
    set (w3 := on_key sym true w2).
    destruct (recognized_transition sym true w Hin) as (_ & H1 & _).
    destruct (recognized_transition sym false w1 Hin) as (_ & H2 & _).
    destruct (recognized_transition sym true w2 Hin) as (_ & H3 & _).
    destruct (recognized_transition sym false w3 Hin) as (Hflag & H4 & _).
    cbv zeta in *. fold w1 in H1. fold w2 in H2. fold w3 in H3.
    split; [exact Hflag |].
    rewrite H4, H3, H2, H1. rewrite <- !app_assoc. reflexivity.
  - intros sym pressed w Hin. cbv zeta. rewrite handle_key_event.
    destruct (recognized_transition sym pressed w Hin) as (Hflag & Hout & _).
    split; assumption.
  - intros sym pressed w Hout. rewrite handle_key_event.
    apply unrecognized_switch. exact Hout.
Qed.

(** The W key pressed and released twice, from the initial state. *)
Example key_w_pressed_twice :
  let w := poll_events
             [ SDL_KEYDOWN SDLK_w; SDL_KEYUP SDLK_w; SDL_KEYDOWN SDLK_w; SDL_KEYUP SDLK_w ]
             initial_world in
  key_w (keys w) = false
  /\ cout w = [ "[Event] W pressed" ++ nl; "[Event] W released" ++ nl;
                "[Event] W pressed" ++ nl; "[Event] W released" ++ nl ].
Proof. split; reflexivity. Qed.

(** ** The frame loop *)

Section FrameFacts.

Variable cosf sinf : float -> float.
Variable show : float -> string.

Lemma debug_frame (w : World) :
  camera (debug show w) = camera w /\ yaw (debug show w) = yaw w
  /\ pitch (debug show w) = pitch w /\ cube1 (debug show w) = cube1 w
  /\ keys (debug show w) = keys w /\ quit (debug show w) = quit w
  /\ calls (debug show w) = calls w.
Proof. unfold debug. destruct (any_key (keys w)); repeat split; reflexivity. Qed.

Lemma turns_compose (f g : World -> World) :
  turns f -> turns g -> turns (fun w => g (f w)).
Proof.
  intros Hf Hg w.
  destruct (Hf w) as (F1 & F2 & F3 & F4 & F5 & F6).
  destruct (Hg (f w)) as (G1 & G2 & G3 & G4 & G5 & G6).
  rewrite G1, G2, G3, G4, G5, G6. repeat split; assumption.
Qed.

Lemma shifts_compose (f g : World -> World) :
  shifts f -> shifts g -> shifts (fun w => g (f w)).
Proof.
  intros Hf Hg w.
  destruct (Hf w) as (F1 & F2 & F3 & F4 & F5 & F6 & F7).
  destruct (Hg (f w)) as (G1 & G2 & G3 & G4 & G5 & G6 & G7).
  rewrite G1, G2, G3, G4, G5, G6, G7. repeat split; assumption.
Qed.

Lemma rotate_frame (w : World) :
  camera (rotate w) = camera w /\ cube1 (rotate w) = cube1 w
  /\ keys (rotate w) = keys w /\ quit (rotate w) = quit w
  /\ cout (rotate w) = cout w /\ calls (rotate w) = calls w.
Proof.
  assert (Hl : turns if_key_left)
    by (intro v; unfold if_key_left; destruct (key_left (keys v)); repeat split; reflexivity).
  assert (Hr : turns if_key_right)
    by (intro v; unfold if_key_right; destruct (key_right (keys v)); repeat split; reflexivity).
  assert (Hu : turns if_key_up)
    by (intro v; unfold if_key_up; destruct (key_up (keys v)); repeat split; reflexivity).
  assert (Hd : turns if_key_down)
    by (intro v; unfold if_key_down; destruct (key_down (keys v)); repeat split; reflexivity).
  exact (turns_compose _ _ (turns_compose _ _ (turns_compose _ _ Hl Hr) Hu) Hd w).
Qed.

Lemma move_frame (w : World) :
  yaw (move cosf sinf w) = yaw w /\ pitch (move cosf sinf w) = pitch w
  /\ cube1 (move cosf sinf w) = cube1 w /\ keys (move cosf sinf w) = keys w
  /\ quit (move cosf sinf w) = quit w /\ cout (move cosf sinf w) = cout w
  /\ calls (move cosf sinf w) = calls w.
Proof.
  assert (Ha : shifts (if_key_a cosf sinf))
    by (intro v; unfold if_key_a; destruct (key_a (keys v)); repeat split; reflexivity).
  assert (Hd : shifts (if_key_d cosf sinf))
    by (intro v; unfold if_key_d; destruct (key_d (keys v)); repeat split; reflexivity).
  assert (Hw : shifts (if_key_w cosf sinf))
    by (intro v; unfold if_key_w; destruct (key_w (keys v)); repeat split; reflexivity).
  assert (Hs : shifts (if_key_s cosf sinf))
    by (intro v; unfold if_key_s; destruct (key_s (keys v)); repeat split; reflexivity).
  assert (Hq : shifts if_key_q)
    by (intro v; unfold if_key_q; destruct (key_q (keys v)); repeat split; reflexivity).
  assert (He : shifts if_key_e)
    by (intro v; unfold if_key_e; destruct (key_e (keys v)); repeat split; reflexivity).
  exact (shifts_compose _ _ (shifts_compose _ _ (shifts_compose _ _
           (shifts_compose _ _ (shifts_compose _ _ Ha Hd) Hw) Hs) Hq) He w).
Qed.

Lemma posed_frame (pending : list SDL_Event) (w : World) :
  cube1 (posed cosf sinf show pending w) = cube1 w
  /\ quit (posed cosf sinf show pending w) = (quit w || existsb is_quit pending)%bool
  /\ calls (posed cosf sinf show pending w) = calls w.
Proof.
  unfold posed.
  destruct (move_frame (rotate (debug show (poll_events pending w))))
    as (_ & _ & Hcb1 & _ & Hq1 & _ & Hcl1).
  destruct (rotate_frame (debug show (poll_events pending w)))
    as (_ & Hcb2 & _ & Hq2 & _ & Hcl2).
  destruct (debug_frame (poll_events pending w))
    as (_ & _ & _ & Hcb3 & _ & Hq3 & Hcl3).
  destruct (poll_events_frame pending w) as (_ & _ & _ & Hcb4 & Hq4 & Hcl4).
  rewrite Hcb1, Hcb2, Hcb3, Hcb4, Hq1, Hq2, Hq3, Hq4, Hcl1, Hcl2, Hcl3, Hcl4.
  repeat split; reflexivity.
Qed.

Lemma frame_unfold (pending : list SDL_Event) (w : World) :
  frame cosf sinf show pending w
  = call (frame_calls cosf sinf (posed cosf sinf show pending w)) (posed cosf sinf show pending w).
Proof. unfold frame, render, posed. reflexivity. Qed.

Lemma frame_frame (pending : list SDL_Event) (w : World) :
  cube1 (frame cosf sinf show pending w) = cube1 w
  /\ quit (frame cosf sinf show pending w) = (quit w || existsb is_quit pending)%bool
  /\ calls (frame cosf sinf show pending w)
     = (calls w ++ frame_calls cosf sinf (posed cosf sinf show pending w))%list.
Proof.
  rewrite frame_unfold.
  destruct (posed_frame pending w) as (Hcb & Hq & Hcl).
  generalize (frame_calls cosf sinf (posed cosf sinf show pending w)); intro drawn.
  revert Hcb Hq Hcl. generalize (posed cosf sinf show pending w); intros v Hcb Hq Hcl.
  destruct v as [c a p cb k q o cl]; unfold call; cbn in *.
  subst. repeat split; reflexivity.
Qed.

Lemma loop_stopped (polls : list (list SDL_Event)) (w : World) :
  quit w = true -> loop cosf sinf show polls w = w.
Proof. intro Hq. destruct polls; simpl; rewrite Hq; reflexivity. Qed.

Lemma loop_step (pending : list SDL_Event) (later : list (list SDL_Event)) (w : World) :
  quit w = false ->
  loop cosf sinf show (pending :: later) w
  = loop cosf sinf show later (frame cosf sinf show pending w).
Proof. intro Hq. simpl. rewrite Hq. reflexivity. Qed.

(** The loop ends in the first frame whose poll holds a quit event. *)
Lemma loop_quits (polls : list (list SDL_Event)) (w : World) :
  Exists (In SDL_QUIT) polls -> quit (loop cosf sinf show polls w) = true.
Proof.
  intro Hex. revert w.
  induction Hex as [pending later Hin | pending later Hex IH]; intro w.
  - destruct (quit w) eqn:Hq.
    + rewrite loop_stopped by exact Hq. exact Hq.
    + rewrite loop_step by exact Hq. rewrite loop_stopped.
      * destruct (frame_frame pending w) as (_ & Hq' & _). rewrite Hq', Hq.
        apply existsb_is_quit. exact Hin.
      * destruct (frame_frame pending w) as (_ & Hq' & _). rewrite Hq', Hq.
        apply existsb_is_quit. exact Hin.
  - destruct (quit w) eqn:Hq.
    + rewrite loop_stopped by exact Hq. exact Hq.
    + rewrite loop_step by exact Hq. apply IH.
Qed.

(** The loop ends only on a quit event. *)
Lemma loop_quit_inv (polls : list (list SDL_Event)) (w : World) :
  quit (loop cosf sinf show polls w) = true ->
  quit w = true \/ Exists (In SDL_QUIT) polls.
Proof.
  revert w. induction polls as [| pending later IH]; intros w Hend.
  - left. destruct (quit w) eqn:Hq; [reflexivity |].
    simpl in Hend. rewrite Hq in Hend. congruence.
  - destruct (quit w) eqn:Hq; [left; reflexivity | right].
    rewrite loop_step in Hend by exact Hq.
    destruct (IH _ Hend) as [Hq' | Hex].
    + destruct (frame_frame pending w) as (_ & Hqf & _).
      rewrite Hqf, Hq in Hq'. apply Exists_cons_hd.
      apply existsb_is_quit. exact Hq'.
    + apply Exists_cons_tl. exact Hex.
Qed.

Lemma loop_cube (polls : list (list SDL_Event)) (w : World) :
  cube1 (loop cosf sinf show polls w) = cube1 w.
Proof.
  revert w. induction polls as [| pending later IH]; intro w; simpl.
  - destruct (quit w); reflexivity.
  - destruct (quit w); [reflexivity |].
    rewrite IH. destruct (frame_frame pending w) as (Hcb & _). exact Hcb.
Qed.

End FrameFacts.

Section LoopClaims.

Variable cosf sinf : float -> float.
Variable show : float -> string.

Lemma draw_edges_table (f : nat -> option SDL_Point) :
  draw_edges (map f (seq 0 8))
  = map (fun e => SDL_RenderDrawLine (f (fst e)) (f (snd e))) edges.
Proof. reflexivity. Qed.

Lemma draw_edges_lines (proj : list (option SDL_Point)) :
  List.length (draw_edges proj) = 12%nat /\ forallb is_line (draw_edges proj) = true.
Proof. split; reflexivity. Qed.

Lemma edges_distinct : NoDup (map undirected edges).
Proof.
  unfold edges, undirected; simpl.
  repeat (apply NoDup_cons; [ simpl; intuition congruence | ]).
  apply NoDup_nil.
Qed.

(** Claim C2, amended. A quit event does not end the poll: the events
    pending behind it are handled like any others, so a recognized key
    event right behind the quit event still sets its flag and writes
    its line; the quit flag stays set. The frame whose poll holds a quit
    event, entered with the flag clear, still clears, draws its twelve
    lines, presents and delays, and the loop ends with that frame
    whatever polls would follow. *)
Theorem quit_mid_poll :
  (forall before after w,
     let w' := poll_events (before ++ SDL_QUIT :: after) w in
     w' = poll_events after (poll_events (before ++ [SDL_QUIT]) w)
     /\ quit w' = true)
  /\ (forall before sym pressed w, In sym recognized_keys ->
        let stop := poll_events (before ++ [SDL_QUIT]) w in
        let w' := poll_events (before ++ [SDL_QUIT; key_event sym pressed]) w in
        flag sym (keys w') = pressed
        /\ cout w' = (cout stop ++ [transition_line sym pressed])%list)
  /\ (forall pending later w, quit w = false -> In SDL_QUIT pending ->
        let w' := frame cosf sinf show pending w in
        loop cosf sinf show (pending :: later) w = w'
        /\ quit w' = true
        /\ exists lines,
             List.length lines = 12%nat /\ forallb is_line lines = true
             /\ calls w'
                = (calls w
                   ++ [ SDL_SetRenderDrawColor 0 0 0 255; SDL_RenderClear;
                        SDL_SetRenderDrawColor 0 128 255 255 ]
                   ++ lines ++ [ SDL_RenderPresent; SDL_Delay 16 ])%list).
Proof.
  split; [| split].
  - intros before after w; cbv zeta. split.
    + change (before ++ SDL_QUIT :: after)%list
        with (before ++ [SDL_QUIT] ++ after)%list.
      rewrite app_assoc, poll_events_app. reflexivity.
    + destruct (poll_events_frame (before ++ SDL_QUIT :: after) w)
        as (_ & _ & _ & _ & Hq & _).
      rewrite Hq. replace (existsb is_quit (before ++ SDL_QUIT :: after)) with true.
      * apply orb_true_r.
      * symmetry. apply existsb_is_quit. apply in_or_app. right. left. reflexivity.
  - intros before sym pressed w Hin; cbv zeta.
    change (before ++ [SDL_QUIT; key_event sym pressed])%list
      with (before ++ [SDL_QUIT] ++ [key_event sym pressed])%list.
    rewrite app_assoc, poll_events_app.
    generalize (poll_events (before ++ [SDL_QUIT]) w); intro stop.
    change (poll_events [key_event sym pressed] stop)
      with (handle_event (key_event sym pressed) stop).
    rewrite handle_key_event.
    destruct (recognized_transition sym pressed stop Hin) as (Hflag & Hout & _).
    split; assumption.
  - intros pending later w Hrun Hin; cbv zeta.
    destruct (frame_frame cosf sinf show pending w) as (_ & Hq & Hcalls).
    assert (Hstop : quit (frame cosf sinf show pending w) = true).
    { rewrite Hq, Hrun. apply existsb_is_quit. exact Hin. }
    split; [| split].
    + rewrite loop_step by exact Hrun. apply loop_stopped. exact Hstop.
    + exact Hstop.
    + exists (draw_edges (project_cube cosf sinf (posed cosf sinf show pending w))).
      destruct (draw_edges_lines
                  (project_cube cosf sinf (posed cosf sinf show pending w)))
        as (Hlen & Hall).
      split; [exact Hlen | split; [exact Hall |]].
      rewrite Hcalls. reflexivity.
Qed.

(** Claim C2 as stated fails: with a key-down of W pending behind the
    quit event, the W flag is set and a second line is written. *)
Lemma quit_does_not_stop_poll : ~ events_after_quit_ignored.
Proof.
  intro Hclaim.
  destruct (Hclaim [] [SDL_KEYDOWN SDLK_w] initial_world) as (Hkeys & _).
  apply (f_equal key_w) in Hkeys. discriminate Hkeys.
Qed.

(** What the poll of a quit event followed by a key-down of W leaves. *)
Example quit_then_key_w :
  let w := poll_events [SDL_QUIT; SDL_KEYDOWN SDLK_w] initial_world in
  quit w = true /\ key_w (keys w) = true
  /\ cout w = [ "[Event] Quit event received." ++ nl; "[Event] W pressed" ++ nl ].
Proof. repeat split. Qed.

(** Claim C6. In every frame, whatever the state it starts from and
    the events of its poll, the calls added are the clear, then one line
    for each of the twelve index pairs of [edges], in that order, between
    the projections of the two vertices, then the present and the delay;
    the twelve pairs are distinct also as undirected edges; and the
    vertices of the cube are never written: not by a frame, and so not by
    the loop, which keeps the eight vertices it starts with. *)
Theorem twelve_edges_drawn :
  (forall pending w,
     let v := posed cosf sinf show pending w in
     let proj (i : nat) :=
       project cosf sinf (nth i (cube1 v) origin) cx cy fov
         (camera v) (yaw v) (pitch v) in
     calls (frame cosf sinf show pending w)
     = (calls w
        ++ [ SDL_SetRenderDrawColor 0 0 0 255; SDL_RenderClear;
             SDL_SetRenderDrawColor 0 128 255 255 ]
        ++ map (fun e => SDL_RenderDrawLine (proj (fst e)) (proj (snd e))) edges
        ++ [ SDL_RenderPresent; SDL_Delay 16 ])%list
     /\ cube1 (frame cosf sinf show pending w) = cube1 w)
  /\ edges = [ (0, 1); (1, 2); (2, 3); (3, 0); (4, 5); (5, 6); (6, 7); (7, 4);
               (0, 4); (1, 5); (2, 6); (3, 7) ]%nat
  /\ List.length edges = 12%nat
  /\ NoDup (map undirected edges)
  /\ (forall polls, cube1 (loop cosf sinf show polls initial_world) = cube).
Proof.
  split; [| split; [| split; [| split]]].
  - intros pending w; cbv zeta.
    destruct (frame_frame cosf sinf show pending w) as (Hcube & _ & Hcalls).
    split; [| exact Hcube].
    rewrite Hcalls. unfold frame_calls, project_cube.
    rewrite draw_edges_table. reflexivity.
  - reflexivity.
  - reflexivity.
  - exact edges_distinct.
  - intro polls. rewrite loop_cube. reflexivity.
Qed.

(** Claim C7. [main] returns 1 exactly when the initialisation of
    SDL, the creation of the window or the creation of the renderer
    fails, and then the one line on [std::cerr] names the step that
    failed, followed by the text of [SDL_GetError]; it returns 0 exactly
    when the three succeed and some poll delivers a quit event, with
    nothing on [std::cerr] and the renderer, the window and SDL released
    last. *)
Theorem exit_status :
  forall sdl polls,
    let r := main cosf sinf show sdl polls in
    (status r = Some 1
     <-> init_ok sdl = false \/ window_ok sdl = false \/ renderer_ok sdl = false)
    /\ (init_ok sdl = false ->
        stderr r = [ "Couldn't initialize SDL: " ++ SDL_GetError sdl ++ nl ])
    /\ (init_ok sdl = true -> window_ok sdl = false ->
        stderr r = [ "Couldn't create window: " ++ SDL_GetError sdl ++ nl ])
    /\ (init_ok sdl = true -> window_ok sdl = true -> renderer_ok sdl = false ->
        stderr r = [ "Couldn't create renderer: " ++ SDL_GetError sdl ++ nl ])
    /\ (status r = Some 0
        <-> init_ok sdl = true /\ window_ok sdl = true /\ renderer_ok sdl = true
            /\ Exists (In SDL_QUIT) polls)
    /\ (status r = Some 0 ->
        stderr r = []
        /\ exists frames,
             sdl_calls r
             = ([ SDL_Init; SDL_CreateWindow window_title 1280 720;
                  SDL_CreateRenderer ]
                ++ frames
                ++ [ SDL_DestroyRenderer; SDL_DestroyWindow; SDL_Quit ])%list).
Proof.
  intros sdl polls; cbv zeta. unfold main.
  destruct (init_ok sdl) eqn:Hinit; cbn [negb];
    [ destruct (window_ok sdl) eqn:Hwin; cbn [negb];
      [ destruct (renderer_ok sdl) eqn:Hren; cbn [negb] | ] | ].
  - (* the three start-up calls succeed *)
    destruct (quit (loop cosf sinf show polls initial_world)) eqn:Hq;
      cbn [status stderr sdl_calls].
    + repeat split; try discriminate; try reflexivity.
      * intros [K | [K | K]]; discriminate K.
      * destruct (loop_quit_inv cosf sinf show polls initial_world Hq) as [K | K];
          [discriminate K | exact K].
      * exists (calls (loop cosf sinf show polls initial_world)). reflexivity.
    + repeat split; try discriminate; try reflexivity.
      * intros [K | [K | K]]; discriminate K.
      * intros (_ & _ & _ & Hex).
        rewrite (loop_quits cosf sinf show polls initial_world Hex) in Hq.
        discriminate Hq.
  - (* no renderer *)
    cbn [status stderr sdl_calls].
    repeat split; try discriminate; try reflexivity; try tauto.
    intros (_ & _ & K & _); discriminate K.
  - (* no window *)
    cbn [status stderr sdl_calls].
    repeat split; try discriminate; try reflexivity; try tauto.
    intros (_ & K & _); discriminate K.
  - (* SDL does not initialise *)
    cbn [status stderr sdl_calls].
    repeat split; try discriminate; try reflexivity; try tauto.
    intros (K & _); discriminate K.
Qed.

End LoopClaims.

(** ** The camera *)

Section CameraFacts.

Variable cosf sinf : float -> float.
Variable show : float -> string.

Lemma render_camera (w : World) :
  camera (render cosf sinf w) = camera w /\ yaw (render cosf sinf w) = yaw w
  /\ pitch (render cosf sinf w) = pitch w /\ keys (render cosf sinf w) = keys w
  /\ cout (render cosf sinf w) = cout w.
Proof. repeat split; reflexivity. Qed.

(** Yaw-left alone among the two yaw keys: the yaw goes down by
    [rotSpeed]. *)
Lemma rotate_yaw_left (w : World) :
  key_left (keys w) = true -> key_right (keys w) = false ->
  yaw (rotate w) = (yaw w - rotSpeed)%f32.
Proof.
  destruct w as [c a p cb [kw ka ks kd kq ke kl kr ku kdn] q o cl].
  cbn [keys key_left key_right yaw]. intros -> ->.
  destruct ku, kdn; run_steps; reflexivity.
Qed.

(** No rotation key: yaw and pitch stay. *)
Lemma rotate_idle (w : World) :
  key_left (keys w) = false -> key_right (keys w) = false ->
  key_up (keys w) = false -> key_down (keys w) = false ->
  rotate w = w.
Proof.
  destruct w as [c a p cb [kw ka ks kd kq ke kl kr ku kdn] q o cl].
  cbn [keys key_left key_right key_up key_down]. intros -> -> -> ->.
  run_steps. reflexivity.
Qed.

(** Forward alone among the four keys that move along X and Z. *)
Lemma move_forward (w : World) :
  key_w (keys w) = true -> key_a (keys w) = false ->
  key_d (keys w) = false -> key_s (keys w) = false ->
  x (camera (move cosf sinf w)) = (x (camera w) + moveSpeed * sinf (yaw w))%f32
  /\ z (camera (move cosf sinf w)) = (z (camera w) + moveSpeed * cosf (yaw w))%f32.
Proof.
  destruct w as [c a p cb [kw ka ks kd kq ke kl kr ku kdn] q o cl].
  cbn [keys key_w key_a key_d key_s camera yaw]. intros -> -> -> ->.
  destruct kq, ke; run_steps; split; reflexivity.
Qed.

(** The Y coordinate moves with Q and E only. *)
Lemma move_level (w : World) :
  key_q (keys w) = false -> key_e (keys w) = false ->
  y (camera (move cosf sinf w)) = y (camera w).
Proof.
  destruct w as [c a p cb [kw ka ks kd kq ke kl kr ku kdn] q o cl].
  cbn [keys key_q key_e camera]. intros -> ->.
  destruct ka, kd, kw, ks; run_steps; reflexivity.
Qed.

(** The pose a frame hands to its draw step is the pose it leaves. *)
Lemma frame_pose (pending : list SDL_Event) (w : World) :
  let v := poll_events pending w in
  camera (frame cosf sinf show pending w)
  = camera (move cosf sinf (rotate (debug show v)))
  /\ yaw (frame cosf sinf show pending w) = yaw (rotate (debug show v))
  /\ pitch (frame cosf sinf show pending w) = pitch (rotate (debug show v))
  /\ keys (frame cosf sinf show pending w) = keys v.
Proof.
  cbv zeta. unfold frame, posed.
  generalize (poll_events pending w); intro v.
  destruct (render_camera (move cosf sinf (rotate (debug show v))))
    as (Hc & Hy & Hp & Hk & _).
  destruct (move_frame cosf sinf (rotate (debug show v)))
    as (Hy' & Hp' & _ & Hk' & _).
  destruct (rotate_frame (debug show v)) as (_ & _ & Hk'' & _).
  destruct (debug_frame show v) as (_ & _ & _ & _ & Hk''' & _).
  rewrite Hc, Hy, Hp, Hk, Hy', Hp', Hk', Hk'', Hk'''.
  repeat split; reflexivity.
Qed.

(** Claim C1, amended. With yaw-left and forward held in a frame (and
    none of yaw-right, strafe and back), the frame lowers the yaw by
    [rotSpeed] and moves the camera along X and Z by [moveSpeed] times
    the sine and the cosine of the yaw already lowered by that frame's
    rotation step. *)
Theorem translation_from_turned_yaw :
  forall (pending : list SDL_Event) (w : World),
    left_and_forward (keys (poll_events pending w)) ->
    let w' := frame cosf sinf show pending w in
    let turned := (yaw w - rotSpeed)%f32 in
    yaw w' = turned
    /\ x (camera w') = (x (camera w) + moveSpeed * sinf turned)%f32
    /\ z (camera w') = (z (camera w) + moveSpeed * cosf turned)%f32.
Proof.
  intros pending w (Hl & Hw & Hr & Ha & Hd & Hs); cbv zeta.
  destruct (frame_pose pending w) as (Hcam & Hyaw & _).
  destruct (poll_events_frame pending w) as (Hc0 & Hy0 & _).
  rewrite Hcam, Hyaw.
  set (v := poll_events pending w) in *.
  destruct (debug_frame show v) as (Hc1 & Hy1 & _ & _ & Hk1 & _).
  assert (Hturn : yaw (rotate (debug show v)) = (yaw w - rotSpeed)%f32).
  { rewrite rotate_yaw_left; rewrite ?Hk1; try assumption.
    rewrite Hy1, Hy0. reflexivity. }
  destruct (rotate_frame (debug show v)) as (Hc2 & _ & Hk2 & _).
  destruct (move_forward (rotate (debug show v))) as (Hx & Hz);
    rewrite ?Hk2, ?Hk1; try assumption.
  rewrite Hx, Hz, Hturn, Hc2, Hc1, Hc0. repeat split; reflexivity.
Qed.

(** Whatever the library, the claim that the translation uses the yaw
    of the frame's start ties the sine at -0.05 to the sine at 0: from
    the initial state the X they give would be the same. *)
Lemma initial_yaw_ties_sines :
  translation_from_initial_yaw cosf sinf show ->
  (F32.zero + moveSpeed * sinf (F32.zero - rotSpeed))%f32
  = (F32.zero + moveSpeed * sinf F32.zero)%f32.
Proof.
  intro Hclaim.
  pose (w := holding (set_key_left true (set_key_w true no_keys))).
  assert (Hheld : left_and_forward (keys (poll_events [] w)))
    by (repeat split; reflexivity).
  destruct (Hclaim [] w Hheld) as (Hx & _).
  destruct (frame_pose [] w) as (Hcam & _).
  rewrite Hcam in Hx. cbn [poll_events] in Hx.
  destruct (debug_frame show w) as (Hc1 & Hy1 & _ & _ & Hk1 & _).
  destruct (rotate_frame (debug show w)) as (Hc2 & _ & Hk2 & _).
  destruct (move_forward (rotate (debug show w))) as (Hmove & _);
    try (rewrite Hk2, Hk1; reflexivity).
  rewrite Hmove, Hc2, Hc1 in Hx.
  rewrite rotate_yaw_left in Hx by (rewrite Hk1; reflexivity).
  rewrite Hy1 in Hx. exact Hx.
Qed.

End CameraFacts.

(** One frame from the initial state with yaw-left and forward held,
    no event pending: the two keys are held as the theorem asks, and its
    conclusion there reads yaw = -0.05, X = 16 sin(-0.05) and
    Z = 16 cos(-0.05). *)
Lemma translation_from_turned_yaw_witness :
  let w := holding (set_key_left true (set_key_w true no_keys)) in
  let w' := frame F32.cos_taylor F32.sin_taylor show_nothing [] w in
  left_and_forward (keys (poll_events [] w))
  /\ yaw w' = (yaw w - rotSpeed)%f32
  /\ x (camera w')
     = (x (camera w) + moveSpeed * F32.sin_taylor (yaw w - rotSpeed))%f32
  /\ z (camera w')
     = (z (camera w) + moveSpeed * F32.cos_taylor (yaw w - rotSpeed))%f32.
Proof.
  cbv zeta. split.
  - repeat split; reflexivity.
  - apply (translation_from_turned_yaw F32.cos_taylor F32.sin_taylor
             show_nothing []
             (holding (set_key_left true (set_key_w true no_keys)))).
    repeat split; reflexivity.
Defined.

(** The same frame in numbers: the yaw goes to -0.05, X to
    16 sin(-0.05) = -0.7997 and Z to 16 cos(-0.05) = 15.98; with the
    yaw of the frame's start X would stay 0 and Z would go to 16. *)
Example yaw_left_and_forward_frame :
  let w' := frame F32.cos_taylor F32.sin_taylor show_nothing []
              (holding (set_key_left true (set_key_w true no_keys))) in
  yaw w' = S754_finite true 13421773 (-28)
  /\ x (camera w') = S754_finite true 13416181 (-24)
  /\ z (camera w') = S754_finite false 16756249 (-20).
Proof. repeat split; vm_compute; reflexivity. Qed.

(** Claim C1 as stated fails: from the initial state the yaw of the
    frame's start is 0, whose sine is 0, yet the camera's X moves. *)
Lemma translation_not_from_initial_yaw :
  ~ translation_from_initial_yaw F32.cos_taylor F32.sin_taylor show_nothing.
Proof.
  intro Hclaim.
  pose proof (initial_yaw_ties_sines F32.cos_taylor F32.sin_taylor
                show_nothing Hclaim) as Hx.
  vm_compute in Hx. discriminate Hx.
Qed.

(** ** The projection *)

Section ProjectionClaims.

Variable cosf sinf : float -> float.

Local Open Scope Z_scope.

(** Claim C10, amended. Projecting the camera's own position gives
    exactly the screen center whenever the camera's coordinates are finite,
    the sines and cosines of the two angles are finite, [fov] is finite
    and not zero, and the two center coordinates are below 2^24 in
    magnitude, so that their conversion to [float] is exact. *)
Theorem own_position_projects_to_center :
  forall (c : Point3D) (yaw pitch : float) (cx cy : Z) (fov : float),
    F32.is_finite (x c) = true -> F32.is_finite (y c) = true ->
    F32.is_finite (z c) = true ->
    F32.is_finite (cosf yaw) = true -> F32.is_finite (sinf yaw) = true ->
    F32.is_finite (cosf pitch) = true -> F32.is_finite (sinf pitch) = true ->
    F32.is_nonzero_finite fov = true ->
    F32.exact_int cx -> F32.exact_int cy ->
    project cosf sinf c cx cy fov c yaw pitch = Some (mkPoint cx cy).
Proof.
  intros c yaw pitch cx cy fov Hx Hy Hz Hcy Hsy Hcp Hsp Hfov Hcx Hcy'.
  unfold project, project_f.
  rewrite (F32Facts.sub_self (x c) Hx), (F32Facts.sub_self (y c) Hy),
    (F32Facts.sub_self (z c) Hz).
  assert (H0 : F32.is_zero F32.zero = true) by reflexivity.
  (* the translated point is the origin, and both rotations keep it *)
  assert (Hxz : F32.is_zero (F32.zero * cosf yaw - F32.zero * sinf yaw)%f32 = true)
    by (apply F32Facts.zero_sub; apply F32Facts.zero_mul; assumption).
  assert (Hzz : F32.is_zero (F32.zero * sinf yaw + F32.zero * cosf yaw)%f32 = true)
    by (apply F32Facts.zero_add; apply F32Facts.zero_mul; assumption).
  set (xz := (F32.zero * cosf yaw - F32.zero * sinf yaw)%f32) in *.
  set (zz := (F32.zero * sinf yaw + F32.zero * cosf yaw)%f32) in *.
  assert (Hyz : F32.is_zero (F32.zero * cosf pitch - zz * sinf pitch)%f32 = true)
    by (apply F32Facts.zero_sub; apply F32Facts.zero_mul; assumption).
  assert (Hzz2 : F32.is_zero (F32.zero * sinf pitch + zz * cosf pitch)%f32 = true)
    by (apply F32Facts.zero_add; apply F32Facts.zero_mul; assumption).
  set (yz := (F32.zero * cosf pitch - zz * sinf pitch)%f32) in *.
  set (zz2 := (F32.zero * sinf pitch + zz * cosf pitch)%f32) in *.
  (* the factor is fov / fov = 1 *)
  rewrite (F32Facts.zero_add_l zz2 fov Hzz2 Hfov).
  rewrite (F32Facts.div_self fov Hfov).
  assert (Hone : F32.is_finite F32.one = true) by reflexivity.
  rewrite (F32Facts.of_int_add_zero cx (xz * F32.one)%f32 Hcx
             (F32Facts.zero_mul xz F32.one Hxz Hone)).
  rewrite (F32Facts.of_int_add_zero cy (yz * F32.one)%f32 Hcy'
             (F32Facts.zero_mul yz F32.one Hyz Hone)).
  rewrite (F32Facts.to_int_of_int cx Hcx), (F32Facts.to_int_of_int cy Hcy').
  reflexivity.
Qed.

(** With a cosine of 1 and a sine of 0 for both angles, the two
    coordinates [project] computes are those of the closed form. *)
Lemma project_f_at_rest (p camera : Point3D) (cx cy : Z) (fov : float) :
  cosf F32.zero = F32.one -> sinf F32.zero = F32.zero ->
  well_formed p -> well_formed camera -> in_reach p camera ->
  project_f cosf sinf p cx cy fov camera F32.zero F32.zero
  = closed_form_f p cx cy fov camera.
Proof.
  intros Hcos Hsin (Hpx & Hpy & Hpz) (Hcx & Hcy & Hcz) (Hfx & Hfy & Hfz).
  pose proof (F32Facts.sub_valid _ _ Hpx Hcx) as Hvx.
  pose proof (F32Facts.sub_valid _ _ Hpy Hcy) as Hvy.
  pose proof (F32Facts.sub_valid _ _ Hpz Hcz) as Hvz.
  unfold project_f, closed_form_f. rewrite Hcos, Hsin.
  generalize dependent (x p - x camera)%f32; intros dx Hfx Hvx.
  generalize dependent (y p - y camera)%f32; intros dy Hfy Hvy.
  generalize dependent (z p - z camera)%f32; intros dz Hfz Hvz.
  pose proof (F32Facts.rest_minus dx dz Hvx Hfx Hfz) as Hxz.
  pose proof (F32Facts.rest_plus dx dz Hfx Hvz Hfz) as Hzz.
  set (xz := (dx * F32.one - dz * F32.zero)%f32) in *.
  set (zz := (dx * F32.zero + dz * F32.one)%f32) in *.
  destruct (F32Facts.same_number_plain zz dz Hzz Hvz Hfz) as [Hvzz Hfzz].
  pose proof (F32Facts.rest_minus dy zz Hvy Hfy Hfzz) as Hyz.
  pose proof (F32Facts.rest_plus dy zz Hfy Hvzz Hfzz) as Hzz2.
  set (yz := (dy * F32.one - zz * F32.zero)%f32) in *.
  set (zz2 := (dy * F32.zero + zz * F32.one)%f32) in *.
  rewrite (F32Facts.factor_same zz2 dz fov
             (F32Facts.same_number_trans zz2 zz dz Hzz2 Hzz)).
  set (factor := (fov / (dz + fov))%f32).
  rewrite (F32Facts.add_same (F32.of_int cx) (xz * factor)%f32 (dx * factor)%f32
             (F32Facts.of_int_not_negative_zero cx)
             (F32Facts.mul_same xz dx factor Hxz)).
  rewrite (F32Facts.add_same (F32.of_int cy) (yz * factor)%f32 (dy * factor)%f32
             (F32Facts.of_int_not_negative_zero cy)
             (F32Facts.mul_same yz dy factor Hyz)).
  reflexivity.
Qed.

(** Claim C3, amended. When the library gives cos 0 = 1 and
    sin 0 = 0: for every point and camera position of well-formed
    coordinates whose three differences are finite (no overflow in the
    subtraction), every center and every [fov], [project] with
    yaw = pitch = 0 returns exactly the closed form, undefined where the
    closed form is; and with the camera at the origin, fov = 500 and
    center (640, 360) the point (0, 0, 500) projects to (640, 360). *)
Theorem project_at_rest :
  cosf F32.zero = F32.one -> sinf F32.zero = F32.zero ->
  (forall (p camera : Point3D) (cx cy : Z) (fov : float),
     well_formed p -> well_formed camera -> in_reach p camera ->
     project cosf sinf p cx cy fov camera F32.zero F32.zero
     = closed_form p cx cy fov camera)
  /\ project cosf sinf (vertex 0 0 500) 640 360 (F32.of_int 500) origin
       F32.zero F32.zero
     = Some (mkPoint 640 360).
Proof.
  intros Hcos Hsin.
  assert (Hall : forall (p camera : Point3D) (cx cy : Z) (fov : float),
             well_formed p -> well_formed camera -> in_reach p camera ->
             project cosf sinf p cx cy fov camera F32.zero F32.zero
             = closed_form p cx cy fov camera).
  { intros p camera cx cy fov Hp Hc Hreach.
    unfold project, closed_form.
    rewrite (project_f_at_rest p camera cx cy fov Hcos Hsin Hp Hc Hreach).
    reflexivity. }
  split; [exact Hall |].
  rewrite Hall.
  - vm_compute. reflexivity.
  - repeat split.
  - repeat split.
  - repeat split.
Qed.

(** [project] sees the two angles through their cosine and sine only:
    two yaws at which the library returns the same cosine and the same
    sine give the same projection, and likewise two pitches. *)
Lemma project_through_cos_sin (p : Point3D) (cx cy : Z) (fov : float)
    (camera : Point3D) (yaw yaw' pitch pitch' : float) :
  cosf yaw = cosf yaw' -> sinf yaw = sinf yaw' ->
  cosf pitch = cosf pitch' -> sinf pitch = sinf pitch' ->
  project cosf sinf p cx cy fov camera yaw pitch
  = project cosf sinf p cx cy fov camera yaw' pitch'.
Proof.
  intros Hcy Hsy Hcp Hsp. unfold project, project_f.
  rewrite Hcy, Hsy, Hcp, Hsp. reflexivity.
Qed.

(** Every division by a zero denominator ends in an undefined
    conversion. *)
Lemma zero_denominator_undefined (p : Point3D) (cx cy : Z) (fov : float)
    (camera : Point3D) (yaw pitch : float) :
  F32.is_zero (denominator cosf sinf p fov camera yaw pitch) = true ->
  F32.is_finite (fov / denominator cosf sinf p fov camera yaw pitch)%f32 = false
  /\ project cosf sinf p cx cy fov camera yaw pitch = None.
Proof.
  intro Hden.
  pose proof (F32Facts.not_finite_div_zero fov _ Hden) as Hfactor.
  split; [exact Hfactor |].
  unfold project, project_f. unfold denominator in Hfactor.
  set (factor := (fov / _)%f32) in *.
  set (xz := (_ - _)%f32).
  rewrite (F32Facts.to_int_not_finite (F32.of_int cx + xz * factor)%f32).
  - reflexivity.
  - apply F32Facts.not_finite_add. apply F32Facts.not_finite_mul. exact Hfactor.
Qed.

(** Claim C4, amended. When the library gives cos 0 = 1 and
    sin 0 = 0. The divide is unguarded: whenever the denominator
    [zz2 + fov] is a zero the division is still made, the factor is an
    infinity or a NaN, and the conversion of the result to [int] is
    undefined; the point (0, 0, -500) seen from the origin with fov = 500
    is such an input. Where the two coordinates computed are finite
    and within the range of [int], [project] returns their integral
    parts. Nothing is clipped: the cube vertex (100, 100, -100), behind
    the camera at the origin, projects to (765, 485), and the point
    (100, 100, -1000), behind the plane where the denominator changes
    sign, projects to the mirrored (540, 260). *)
Theorem perspective_divide_unguarded :
  cosf F32.zero = F32.one -> sinf F32.zero = F32.zero ->
  (forall p cx cy fov camera yaw pitch,
     F32.is_zero (denominator cosf sinf p fov camera yaw pitch) = true ->
     F32.is_finite (fov / denominator cosf sinf p fov camera yaw pitch)%f32 = false
     /\ project cosf sinf p cx cy fov camera yaw pitch = None)
  /\ F32.is_zero (denominator cosf sinf (vertex 0 0 (-500)) fov origin
                    F32.zero F32.zero) = true
  /\ (forall p cx cy fov camera yaw pitch ix iy,
        F32.to_int (fst (project_f cosf sinf p cx cy fov camera yaw pitch)) = Some ix ->
        F32.to_int (snd (project_f cosf sinf p cx cy fov camera yaw pitch)) = Some iy ->
        project cosf sinf p cx cy fov camera yaw pitch = Some (mkPoint ix iy))
  /\ project cosf sinf (vertex 100 100 (-100)) cx cy fov origin F32.zero F32.zero
     = Some (mkPoint 765 485)
  /\ project cosf sinf (vertex 100 100 (-1000)) cx cy fov origin F32.zero F32.zero
     = Some (mkPoint 540 260).
Proof.
  intros Hcos Hsin. split; [| split; [| split; [| split]]].
  - intros p cx cy fov camera yaw pitch.
    apply zero_denominator_undefined.
  - unfold denominator. rewrite Hcos, Hsin. vm_compute. reflexivity.
  - intros p cx cy fov camera yaw pitch ix iy Hx Hy. unfold project.
    destruct (project_f cosf sinf p cx cy fov camera yaw pitch) as [sx sy].
    cbn [fst snd] in Hx, Hy. rewrite Hx, Hy. reflexivity.
  - unfold project, project_f. rewrite Hcos, Hsin. vm_compute. reflexivity.
  - unfold project, project_f. rewrite Hcos, Hsin. vm_compute. reflexivity.
Qed.

(** Whatever the library gives away from 0, with cos 0 = 1 and
    sin 0 = 0 the closed form is missed where a difference overflows:
    P.z = FLT_MAX seen from C.z = -FLT_MAX. *)
Lemma overflow_misses_closed_form :
  cosf F32.zero = F32.one -> sinf F32.zero = F32.zero ->
  ~ closed_form_everywhere cosf sinf.
Proof.
  intros Hcos Hsin Hclaim.
  assert (Hboth : project cosf sinf
                     (mkPoint3D F32.zero F32.zero F32.FLT_MAX) cx cy fov
                     (mkPoint3D F32.zero F32.zero (SFopp F32.FLT_MAX))
                     F32.zero F32.zero
                   = closed_form (mkPoint3D F32.zero F32.zero F32.FLT_MAX) cx cy fov
                       (mkPoint3D F32.zero F32.zero (SFopp F32.FLT_MAX)))
    by (apply Hclaim; repeat split).
  unfold project, project_f in Hboth. rewrite Hcos, Hsin in Hboth.
  vm_compute in Hboth. discriminate Hboth.
Qed.

(** Likewise a center of 2^24 + 1 comes back as 2^24. *)
Lemma large_center_missed :
  cosf F32.zero = F32.one -> sinf F32.zero = F32.zero ->
  ~ own_position_at_center cosf sinf.
Proof.
  intros Hcos Hsin Hclaim.
  assert (Hcenter : project cosf sinf origin 16777217 0 (F32.of_int 500) origin
                      F32.zero F32.zero
                    = Some (mkPoint 16777217 0)).
  { apply Hclaim; try reflexivity; try (repeat split; reflexivity);
      unfold F32.INT_MIN, F32.INT_MAX; lia. }
  unfold project, project_f in Hcenter. rewrite Hcos, Hsin in Hcenter.
  vm_compute in Hcenter. discriminate Hcenter.
Qed.

(** Likewise the point at X = 2^31 has the denominator 500 and no
    defined projection. *)
Lemma out_of_range_undefined :
  cosf F32.zero = F32.one -> sinf F32.zero = F32.zero ->
  ~ defined_off_zero_denominator cosf sinf.
Proof.
  intros Hcos Hsin Hclaim.
  apply (Hclaim (vertex (2 ^ 31) 0 0) cx cy fov origin F32.zero F32.zero).
  - repeat split.
  - repeat split.
  - reflexivity.
  - reflexivity.
  - reflexivity.
  - split; discriminate.
  - split; discriminate.
  - unfold denominator. rewrite Hcos, Hsin. vm_compute. reflexivity.
  - unfold project, project_f. rewrite Hcos, Hsin. vm_compute. reflexivity.
Qed.

End ProjectionClaims.

(** The closed form at three vertices of the cube seen from three
    camera positions, and the point on the optical axis. *)
Lemma project_at_rest_witness :
  (project F32.cos_taylor F32.sin_taylor (vertex 100 (-100) 100) cx cy fov
     (vertex 16 0 (-160)) F32.zero F32.zero
   = closed_form (vertex 100 (-100) 100) cx cy fov (vertex 16 0 (-160))
   /\ project F32.cos_taylor F32.sin_taylor (vertex (-100) 100 (-100)) cx cy fov
        (vertex 0 (-48) 320) F32.zero F32.zero
      = closed_form (vertex (-100) 100 (-100)) cx cy fov (vertex 0 (-48) 320)
   /\ project F32.cos_taylor F32.sin_taylor (vertex 100 100 (-100)) cx cy fov
        origin F32.zero F32.zero
      = closed_form (vertex 100 100 (-100)) cx cy fov origin)
  /\ project F32.cos_taylor F32.sin_taylor (vertex 0 0 500) 640 360
       (F32.of_int 500) origin F32.zero F32.zero
     = Some (mkPoint 640 360).
Proof.
  destruct (project_at_rest F32.cos_taylor F32.sin_taylor eq_refl eq_refl)
    as [Hall Hsample].
  split; [| exact Hsample].
  repeat split; apply Hall; repeat split.
Defined.

(** Claim C3 as stated fails where a coordinate difference overflows:
    with P.z = FLT_MAX and C.z = -FLT_MAX the difference is +infinity,
    its product by sin 0 = 0 is a NaN, and [project] is undefined, while
    the closed form gives the center (640, 360). *)
Lemma closed_form_fails_on_overflow :
  ~ closed_form_everywhere F32.cos_taylor F32.sin_taylor.
Proof.
  apply overflow_misses_closed_form; reflexivity.
Qed.

(** The camera's own position at a cube vertex, turned by 0.05. *)
Lemma own_position_projects_to_center_witness :
  project F32.cos_taylor F32.sin_taylor (vertex 100 100 100) 640 360
    (F32.of_int 500) (vertex 100 100 100) F32.lit_0_05 F32.zero
  = Some (mkPoint 640 360).
Proof.
  apply (own_position_projects_to_center F32.cos_taylor F32.sin_taylor);
    reflexivity.
Defined.

(** Claim C10 as stated fails for a center that is no binary32 value:
    2^24 + 1 is converted to 2^24. *)
Lemma own_position_misses_large_center :
  ~ own_position_at_center F32.cos_taylor F32.sin_taylor.
Proof.
  apply large_center_missed; reflexivity.
Qed.

(** Where the other hypotheses are needed: a camera at +infinity
    along X, or an infinite [fov], leaves a NaN to convert. *)
Example own_position_at_infinity :
  project F32.cos_taylor F32.sin_taylor
    (mkPoint3D (S754_infinity false) F32.zero F32.zero) 640 360 (F32.of_int 500)
    (mkPoint3D (S754_infinity false) F32.zero F32.zero) F32.zero F32.zero
  = None
  /\ project F32.cos_taylor F32.sin_taylor origin 640 360 (S754_infinity false)
       origin F32.zero F32.zero
     = None.
Proof. split; vm_compute; reflexivity. Qed.

(** The hypotheses of the theorem hold for the stand-ins, and the
    point (0, 0, -500) has a zero denominator. *)
Lemma perspective_divide_unguarded_witness :
  project F32.cos_taylor F32.sin_taylor (vertex 0 0 (-500)) cx cy fov origin
    F32.zero F32.zero = None
  /\ project F32.cos_taylor F32.sin_taylor (vertex 100 100 (-1000)) cx cy fov
       origin F32.zero F32.zero = Some (mkPoint 540 260).
Proof.
  destruct (perspective_divide_unguarded F32.cos_taylor F32.sin_taylor
              eq_refl eq_refl) as (Hzero & Hden & _ & _ & Hbehind).
  split; [| exact Hbehind].
  apply (Hzero (vertex 0 0 (-500)) cx cy fov origin F32.zero F32.zero Hden).
Defined.

(** Claim C4 as stated fails: with P.x = 2^31 the denominator is
    fov = 500, not zero, and the X coordinate computed is beyond the
    range of [int]. *)
Lemma nonzero_denominator_undefined :
  ~ defined_off_zero_denominator F32.cos_taylor F32.sin_taylor.
Proof.
  apply out_of_range_undefined; reflexivity.
Qed.

(** ** Moving forward *)

Section ForwardClaims.

Variable cosf sinf : float -> float.
Variable show : float -> string.

Hypothesis cos_zero : cosf F32.zero = F32.one.
Hypothesis sin_zero : sinf F32.zero = F32.zero.

Local Open Scope Z_scope.

Lemma forward_step_z : (moveSpeed * F32.one)%f32 = F32.of_int 16.
Proof. vm_compute. reflexivity. Qed.

Lemma forward_step_x : (moveSpeed * F32.zero)%f32 = F32.zero.
Proof. vm_compute. reflexivity. Qed.

(** One frame with forward alone held, the yaw at 0 and no event
    pending. *)
Lemma forward_frame (w : World) :
  keys w = forward_only -> yaw w = F32.zero ->
  let w' := frame cosf sinf show [] w in
  keys w' = forward_only /\ yaw w' = F32.zero /\ pitch w' = pitch w
  /\ quit w' = quit w
  /\ x (camera w') = (x (camera w) + F32.zero)%f32
  /\ y (camera w') = y (camera w)
  /\ z (camera w') = (z (camera w) + F32.of_int 16)%f32.
Proof.
  intros Hkeys Hyaw; cbv zeta.
  destruct (frame_pose cosf sinf show [] w) as (Hcam & Hy & Hp & Hk).
  destruct (frame_frame cosf sinf show [] w) as (_ & Hq & _).
  cbn [poll_events] in Hcam, Hy, Hp, Hk.
  destruct (debug_frame show w) as (Hc1 & Hy1 & Hp1 & _ & Hk1 & _).
  assert (Hidle : rotate (debug show w) = debug show w).
  { apply rotate_idle; rewrite Hk1, Hkeys; reflexivity. }
  rewrite Hidle in Hcam, Hy, Hp.
  destruct (move_forward cosf sinf (debug show w)) as (Hx & Hz);
    try (rewrite Hk1, Hkeys; reflexivity).
  pose proof (move_level cosf sinf (debug show w)) as Hlevel.
  rewrite Hk1, Hkeys in Hlevel. specialize (Hlevel eq_refl eq_refl).
  rewrite Hy1, Hyaw, sin_zero, forward_step_x, Hc1 in Hx.
  rewrite Hy1, Hyaw, cos_zero, forward_step_z, Hc1 in Hz.
  rewrite Hcam, Hy, Hp, Hk, Hq, Hx, Hz, Hlevel, Hy1, Hp1, Hc1, Hyaw, Hkeys.
  cbn [existsb]. rewrite orb_false_r. repeat split; reflexivity.
Qed.

Lemma idle_polls_step (n : nat) (w : World) :
  quit w = false ->
  loop cosf sinf show (idle_polls (S n)) w
  = loop cosf sinf show (idle_polls n) (frame cosf sinf show [] w).
Proof. intro Hq. unfold idle_polls. cbn [repeat]. apply loop_step. exact Hq. Qed.

Lemma idle_polls_none (w : World) : loop cosf sinf show (idle_polls 0) w = w.
Proof. unfold idle_polls. cbn [repeat loop]. destruct (quit w); reflexivity. Qed.

(** One frame after whose poll forward alone is held, the yaw at 0,
    whatever events the poll delivered. *)
Lemma forward_frame_polled (pending : list SDL_Event) (w : World) :
  held_after pending (keys w) = forward_only -> yaw w = F32.zero ->
  let w' := frame cosf sinf show pending w in
  keys w' = forward_only /\ yaw w' = F32.zero /\ pitch w' = pitch w
  /\ quit w' = (quit w || existsb is_quit pending)%bool
  /\ x (camera w') = (x (camera w) + F32.zero)%f32
  /\ y (camera w') = y (camera w)
  /\ z (camera w') = (z (camera w) + F32.of_int 16)%f32.
Proof.
  intros Hheld Hyaw; cbv zeta.
  rewrite <- held_after_poll in Hheld.
  destruct (poll_events_frame pending w) as (Hc0 & Hy0 & Hp0 & _ & Hq0 & _).
  assert (Hsame : frame cosf sinf show pending w
                  = frame cosf sinf show [] (poll_events pending w)).
  { unfold frame, posed. cbn [poll_events]. reflexivity. }
  rewrite Hsame.
  assert (Hyaw0 : yaw (poll_events pending w) = F32.zero)
    by (rewrite Hy0; exact Hyaw).
  destruct (forward_frame (poll_events pending w) Hheld Hyaw0)
    as (Hk1 & Hy1 & Hp1 & Hq1 & Hx1 & Hlevel1 & Hz1).
  rewrite Hk1, Hy1, Hp1, Hq1, Hx1, Hlevel1, Hz1, Hc0, Hp0, Hq0.
  split; [reflexivity | split; [reflexivity | split; [reflexivity |
    split; [reflexivity | split; [reflexivity | split; reflexivity]]]]].
Qed.

(** Claim C5, amended. When the library gives cos 0 = 1 and
    sin 0 = 0: take any run of the loop from a state with yaw 0 and a
    camera whose Z is the integer [a], of [n] frames (the frames the
    loop runs on the given polls: all of them up to and including the
    one of a quit event) during which only forward is held: once the
    poll of each frame is done, forward and no other key is held,
    whatever events the polls deliver (the key-down of forward itself,
    its repeats, events of other kinds, a key pressed and released
    within one poll, the quit event). With [|a| + 16 n] below 2^24 the
    run leaves the camera's Z at exactly [a + 16 n], the same number in
    X (a negative zero becomes +0), and Y, yaw and pitch as they
    were. *)
Theorem forward_for_n_frames :
  forall (polls : list (list SDL_Event)) (w : World) (a : Z),
    yaw w = F32.zero -> quit w = false ->
    only_forward_held (consumed polls) (keys w) ->
    z (camera w) = F32.of_int a ->
    Z.abs a + 16 * Z.of_nat (List.length (consumed polls)) < 2 ^ 24 ->
    let n := Z.of_nat (List.length (consumed polls)) in
    let w' := loop cosf sinf show polls w in
    z (camera w') = F32.of_int (a + 16 * n)
    /\ F32.to_int (z (camera w')) = Some (a + 16 * n)
    /\ F32.same_number (x (camera w')) (x (camera w))
    /\ y (camera w') = y (camera w)
    /\ yaw w' = yaw w /\ pitch w' = pitch w.
Proof.
  induction polls as [| pending later IH]; intros w a Hyaw Hquit Hheld Hz Hbound;
    cbv zeta.
  - cbn [consumed List.length Z.of_nat loop] in *. rewrite Hquit.
    replace (a + 16 * 0) with a by lia.
    rewrite Hz.
    split; [reflexivity | split; [| split; [| split; [| split]]]];
      try reflexivity.
    + apply F32Facts.to_int_of_int. unfold F32.exact_int. lia.
    + apply F32Facts.same_number_refl.
  - rewrite loop_step by exact Hquit.
    revert Hheld Hbound. cbn [consumed].
    destruct (existsb is_quit pending) eqn:Hq;
      cbn [only_forward_held List.length]; intros [Hhere Hlater] Hbound;
      destruct (forward_frame_polled pending w Hhere Hyaw)
        as (Hk1 & Hy1 & Hp1 & Hq1 & Hx1 & Hlevel1 & Hz1);
      rewrite Hquit, Hq in Hq1; cbn [orb] in Hq1;
      set (w1 := frame cosf sinf show pending w) in *;
      assert (Hz1' : z (camera w1) = F32.of_int (a + 16))
        by (rewrite Hz1, Hz; apply F32Facts.add_of_int; unfold F32.exact_int; lia).
    + (* the frame of the quit event: the last one *)
      rewrite loop_stopped by exact Hq1.
      replace (a + 16 * Z.of_nat 1) with (a + 16) by lia.
      split; [exact Hz1' | split; [| split; [| split; [| split]]]].
      * rewrite Hz1'. apply F32Facts.to_int_of_int. unfold F32.exact_int. lia.
      * rewrite Hx1. apply F32Facts.add_zero_same.
      * exact Hlevel1.
      * rewrite Hy1, Hyaw. reflexivity.
      * exact Hp1.
    + rewrite Hhere in Hlater. rewrite <- Hk1 in Hlater.
      destruct (IH w1 (a + 16) Hy1 Hq1 Hlater Hz1')
        as (Hz' & Hint & Hx' & Hy' & Hyaw' & Hp'); [lia |].
      replace (a + 16 * Z.of_nat (S (List.length (consumed later))))
        with (a + 16 + 16 * Z.of_nat (List.length (consumed later))) by lia.
      split; [exact Hz' | split; [exact Hint | split; [| split; [| split]]]].
      * apply (F32Facts.same_number_trans _ (x (camera w1))); [exact Hx' |].
        rewrite Hx1. apply F32Facts.add_zero_same.
      * rewrite Hy'. exact Hlevel1.
      * rewrite Hyaw', Hy1, Hyaw. reflexivity.
      * rewrite Hp'. exact Hp1.
Qed.

(** Whatever the library gives away from 0 and however floats are
    written, a frame forward from Z = 2^30 leaves Z at 2^30. *)
Lemma far_out_no_gain : ~ forward_gains_16_per_frame cosf sinf show.
Proof.
  intro Hclaim.
  pose (w := set_camera (vertex 0 0 (2 ^ 30)) (holding forward_only)).
  specialize (Hclaim 1%nat w (2 ^ 30) eq_refl eq_refl eq_refl eq_refl
                (conj eq_refl (conj eq_refl eq_refl)) eq_refl eq_refl).
  rewrite idle_polls_step, idle_polls_none in Hclaim by reflexivity.
  destruct (forward_frame w eq_refl eq_refl) as (_ & _ & _ & _ & _ & _ & Hz).
  rewrite Hz in Hclaim. vm_compute in Hclaim. discriminate Hclaim.
Qed.

End ForwardClaims.

(** Five frames forward from the initial state: the key-down of W in
    the first poll, a repeat of it and an event of another kind in the
    second, A pressed and released within the third, nothing in the
    fourth, the quit event in the fifth; the sixth poll is never
    made. *)
Lemma forward_for_n_frames_witness :
  let polls := [ [ SDL_KEYDOWN SDLK_w ]; [ SDL_KEYDOWN SDLK_w; SDL_OTHER ];
                 [ SDL_KEYDOWN SDLK_a; SDL_KEYUP SDLK_a ]; []; [ SDL_QUIT ];
                 [ SDL_KEYUP SDLK_w ] ] in
  let w' := loop F32.cos_taylor F32.sin_taylor show_nothing polls initial_world in
  z (camera w') = F32.of_int 80
  /\ F32.to_int (z (camera w')) = Some 80%Z
  /\ F32.same_number (x (camera w')) F32.zero
  /\ y (camera w') = F32.zero
  /\ yaw w' = F32.zero /\ pitch w' = F32.zero.
Proof.
  cbv zeta.
  apply (forward_for_n_frames F32.cos_taylor F32.sin_taylor show_nothing
           eq_refl eq_refl
           [ [ SDL_KEYDOWN SDLK_w ]; [ SDL_KEYDOWN SDLK_w; SDL_OTHER ];
             [ SDL_KEYDOWN SDLK_a; SDL_KEYUP SDLK_a ]; []; [ SDL_QUIT ];
             [ SDL_KEYUP SDLK_w ] ]
           initial_world 0%Z);
    try reflexivity.
  repeat split.
Defined.

(** Claim C5 as stated fails from a camera far out: at Z = 2^30 the
    spacing of binary32 values is 128, and adding 16 changes nothing. *)
Lemma forward_stalls_far_out :
  ~ forward_gains_16_per_frame F32.cos_taylor F32.sin_taylor show_nothing.
Proof.
  apply far_out_no_gain; reflexivity.
Qed.

(** A frame of forward alone turns an X of -0 into +0: the same
    number, not the same value. *)
Example forward_frame_negative_zero :
  x (camera (frame F32.cos_taylor F32.sin_taylor show_nothing []
               (set_camera (mkPoint3D (S754_zero true) F32.zero F32.zero)
                  (holding forward_only))))
  = S754_zero false.
Proof. vm_compute. reflexivity. Qed.

(** * Further properties of the code *)

(** ** A poll as a whole *)

Section PollProperties.

Lemma heeded_key (s : Z) :
  existsb (Z.eqb s) recognized_keys = true <-> In s recognized_keys.
Proof.
  rewrite existsb_exists. split.
  - intros [k [Hin Heq]]. apply Z.eqb_eq in Heq. subst k. exact Hin.
  - intro Hin. exists s. split; [exact Hin | apply Z.eqb_refl].
Qed.

Lemma recognized_dec (s : Z) : {In s recognized_keys} + {~ In s recognized_keys}.
Proof. apply in_dec. apply Z.eq_dec. Qed.

(** One key event and the flag of a recognized key. *)
Lemma flag_after_event (sym : Z) (e : SDL_Event) (w : World) :
  In sym recognized_keys ->
  flag sym (keys (handle_event e w))
  = match transition_of sym e with
    | Some b => b
    | None => flag sym (keys w)
    end.
Proof.
  intro Hsym.
  assert (Hkey : forall s pressed,
             flag sym (keys (on_key s pressed w))
             = if Z.eqb s sym then pressed else flag sym (keys w)).
  { intros s pressed. destruct (Z.eqb_spec s sym) as [-> | Hne].
    - destruct (recognized_transition sym pressed w Hsym) as (Hflag & _).
      exact Hflag.
    - destruct (recognized_dec s) as [Hin | Hout].
      + destruct (recognized_transition s pressed w Hin) as (_ & _ & Hother & _).
        apply Hother. congruence.
      + rewrite unrecognized_switch by exact Hout. reflexivity. }
  destruct e as [| s | s |]; cbn [transition_of].
  - reflexivity.
  - change (handle_event (SDL_KEYDOWN s) w) with (on_key s true w).
    rewrite Hkey. destruct (Z.eqb s sym); reflexivity.
  - change (handle_event (SDL_KEYUP s) w) with (on_key s false w).
    rewrite Hkey. destruct (Z.eqb s sym); reflexivity.
  - reflexivity.
Qed.

(** Extra X1. After a poll the flag of a recognized key holds what the
    last event of that key in the poll says (true for a key-down, false
    for a key-up), however many events of the key and of other keys the
    poll delivers; with no event of the key the flag is as it was. *)
Theorem last_event_decides_flag :
  forall (sym : Z) (pending : list SDL_Event) (w : World),
    In sym recognized_keys ->
    flag sym (keys (poll_events pending w))
    = match last_transition sym pending with
      | Some b => b
      | None => flag sym (keys w)
      end.
Proof.
  intros sym pending w Hsym. revert w.
  induction pending as [| e rest IH]; intro w.
  - reflexivity.
  - cbn [poll_events last_transition]. rewrite IH.
    destruct (last_transition sym rest) as [b |]; [reflexivity |].
    apply flag_after_event. exact Hsym.
Qed.

(** One event and the log. *)
Lemma log_after_event (e : SDL_Event) (w : World) :
  cout (handle_event e w)
  = (cout w ++ if heeded e then [event_line e] else [])%list
  /\ (heeded e = false -> handle_event e w = w).
Proof.
  assert (Hkey : forall s pressed,
             cout (on_key s pressed w)
             = (cout w ++ if existsb (Z.eqb s) recognized_keys
                          then [transition_line s pressed] else [])%list
             /\ (existsb (Z.eqb s) recognized_keys = false -> on_key s pressed w = w)).
  { intros s pressed. destruct (recognized_dec s) as [Hin | Hout].
    - destruct (recognized_transition s pressed w Hin) as (_ & Hlog & _).
      rewrite (proj2 (heeded_key s) Hin). split; [exact Hlog | discriminate].
    - assert (Hno : existsb (Z.eqb s) recognized_keys = false).
      { destruct (existsb (Z.eqb s) recognized_keys) eqn:Hex; [| reflexivity].
        exfalso. apply Hout. apply heeded_key. exact Hex. }
      rewrite Hno, unrecognized_switch by exact Hout.
      rewrite app_nil_r. split; reflexivity. }
  destruct e as [| s | s |]; cbn [heeded event_line].
  - split; [reflexivity | discriminate].
  - apply (Hkey s true).
  - apply (Hkey s false).
  - split; [cbn; rewrite app_nil_r |]; reflexivity.
Qed.

(** Extra X2. A poll writes one line for each quit event and each
    event of a recognized key, in the order of the events, and nothing
    else; and the events it does not heed (other event types, other
    keys) can be dropped from the poll without any change to the
    state it leaves. *)
Theorem poll_log_and_unheeded_events :
  forall (pending : list SDL_Event) (w : World),
    cout (poll_events pending w)
    = (cout w ++ map event_line (filter heeded pending))%list
    /\ poll_events pending w = poll_events (filter heeded pending) w.
Proof.
  intros pending. induction pending as [| e rest IH]; intro w.
  - cbn. rewrite app_nil_r. split; reflexivity.
  - cbn [poll_events filter].
    destruct (IH (handle_event e w)) as [Hlog Hsame].
    destruct (log_after_event e w) as [Hline Hskip].
    destruct (heeded e) eqn:He.
    + cbn [map poll_events]. split.
      * rewrite Hlog, Hline, <- app_assoc. reflexivity.
      * exact Hsame.
    + rewrite (Hskip eq_refl). exact (IH w).
Qed.

End PollProperties.

(** A poll of five events of which the last two of W are a key-up and
    a key-down. *)
Lemma last_event_decides_flag_witness :
  flag SDLK_w
    (keys (poll_events
             [ SDL_KEYDOWN SDLK_w; SDL_KEYDOWN SDLK_a; SDL_KEYUP SDLK_w;
               SDL_OTHER; SDL_KEYDOWN SDLK_w ] initial_world))
  = match last_transition SDLK_w
            [ SDL_KEYDOWN SDLK_w; SDL_KEYDOWN SDLK_a; SDL_KEYUP SDLK_w;
              SDL_OTHER; SDL_KEYDOWN SDLK_w ] with
    | Some b => b
    | None => flag SDLK_w (keys initial_world)
    end.
Proof.
  apply (last_event_decides_flag SDLK_w). left. reflexivity.
Defined.

(** ** What a frame depends on *)

Section FrameDependence.

Variable cosf sinf : float -> float.
Variable show : float -> string.

Lemma respects_compose (f g : World -> World) :
  respects f -> respects g -> respects (fun v => g (f v)).
Proof. intros Hf Hg heading tilt v1 v2 H. apply Hg. apply Hf. exact H. Qed.

Lemma respects_left : respects if_key_left.
Proof. respects_if if_key_left. Qed.
Lemma respects_right : respects if_key_right.
Proof. respects_if if_key_right. Qed.
Lemma respects_up : respects if_key_up.
Proof. respects_if if_key_up. Qed.
Lemma respects_down : respects if_key_down.
Proof. respects_if if_key_down. Qed.
Lemma respects_a : respects (if_key_a cosf sinf).
Proof. respects_if if_key_a. Qed.
Lemma respects_d : respects (if_key_d cosf sinf).
Proof. respects_if if_key_d. Qed.
Lemma respects_w : respects (if_key_w cosf sinf).
Proof. respects_if if_key_w. Qed.
Lemma respects_s : respects (if_key_s cosf sinf).
Proof. respects_if if_key_s. Qed.
Lemma respects_q : respects if_key_q.
Proof. respects_if if_key_q. Qed.
Lemma respects_e : respects if_key_e.
Proof. respects_if if_key_e. Qed.

Lemma respects_rotate : respects rotate.
Proof.
  exact (respects_compose _ _
           (respects_compose _ _
              (respects_compose _ _ respects_left respects_right) respects_up)
           respects_down).
Qed.

Lemma respects_move : respects (move cosf sinf).
Proof.
  exact (respects_compose _ _
           (respects_compose _ _
              (respects_compose _ _
                 (respects_compose _ _
                    (respects_compose _ _ respects_a respects_d) respects_w)
                 respects_s) respects_q) respects_e).
Qed.

Lemma agree_through (heading tilt : bool) (f : World -> World) (v1 v2 : World) :
  (forall v, keys (f v) = keys v /\ camera (f v) = camera v
             /\ yaw (f v) = yaw v /\ pitch (f v) = pitch v) ->
  agree heading tilt v1 v2 -> agree heading tilt (f v1) (f v2).
Proof.
  intros Hf (Hk & Hh & Ht).
  destruct (Hf v1) as (K1 & C1 & A1 & P1). destruct (Hf v2) as (K2 & C2 & A2 & P2).
  unfold agree. rewrite K1, K2, C1, C2, A1, A2, P1, P2.
  split; [exact Hk | split; assumption].
Qed.

Lemma respects_debug : respects (debug show).
Proof.
  intros heading tilt v1 v2. apply agree_through. intro v.
  destruct (debug_frame show v) as (Hc & Hy & Hp & _ & Hk & _).
  repeat split; assumption.
Qed.

Lemma respects_render : respects (render cosf sinf).
Proof.
  intros heading tilt v1 v2. apply agree_through. intro v.
  destruct (render_camera cosf sinf v) as (Hc & Hy & Hp & Hk & _).
  repeat split; assumption.
Qed.

Lemma respects_on_key (sym : Z) (pressed : bool) : respects (on_key sym pressed).
Proof.
  intros heading tilt
    [c1 a1 p1 cb1 k1 q1 o1 l1] [c2 a2 p2 cb2 k2 q2 o2 l2] (Hk & Hh & Ht).
  cbn [keys camera yaw pitch] in Hk, Hh, Ht. subst k2.
  unfold on_key, agree.
  repeat match goal with
  | |- context [Z.eqb sym ?c] => destruct (Z.eqb sym c)
  end;
  (split; [reflexivity | split; assumption]).
Qed.

Lemma respects_handle_event (e : SDL_Event) : respects (handle_event e).
Proof.
  destruct e as [| s | s |]; intros heading tilt v1 v2 H.
  - destruct H as (Hk & Hh & Ht). split; [exact Hk | split; assumption].
  - apply (respects_on_key s true). exact H.
  - apply (respects_on_key s false). exact H.
  - exact H.
Qed.

Lemma respects_poll (pending : list SDL_Event) : respects (poll_events pending).
Proof.
  induction pending as [| e rest IH]; intros heading tilt v1 v2 H.
  - exact H.
  - cbn [poll_events]. apply IH. apply respects_handle_event. exact H.
Qed.

Lemma respects_update : respects (fun v => render cosf sinf (move cosf sinf (rotate (debug show v)))).
Proof.
  exact (respects_compose _ _
           (respects_compose _ _
              (respects_compose _ _ respects_debug respects_rotate) respects_move)
           respects_render).
Qed.

(** Extra X3. The camera update of a frame sees the events of its poll
    through the key flags they leave and nothing else: two polls after
    which the same keys are held (however many key events each holds)
    lead from a state to the same position, yaw and pitch. *)
Theorem frame_sees_flags_only :
  forall (pending pending' : list SDL_Event) (w : World),
    keys (poll_events pending w) = keys (poll_events pending' w) ->
    camera (frame cosf sinf show pending w) = camera (frame cosf sinf show pending' w)
    /\ yaw (frame cosf sinf show pending w) = yaw (frame cosf sinf show pending' w)
    /\ pitch (frame cosf sinf show pending w) = pitch (frame cosf sinf show pending' w).
Proof.
  intros pending pending' w Hkeys.
  destruct (poll_events_frame pending w) as (Hc & Hy & Hp & _).
  destruct (poll_events_frame pending' w) as (Hc' & Hy' & Hp' & _).
  assert (Hagree : agree true true (poll_events pending w) (poll_events pending' w)).
  { split; [exact Hkeys | split; intros _].
    - rewrite Hc, Hc', Hy, Hy'. split; reflexivity.
    - rewrite Hp, Hp'. reflexivity. }
  destruct (respects_update true true _ _ Hagree) as (_ & Hh & Ht).
  destruct (Hh eq_refl) as [Ec Ea]. specialize (Ht eq_refl).
  unfold frame, posed. repeat split; assumption.
Qed.

(** Extra X4. Heading and tilt do not mix: the position, the yaw and
    the key flags a frame leaves depend on the position, the yaw and the
    key flags it starts from (and on its events), not on the pitch, the
    log, the calls made so far or the quit flag; and the pitch it leaves
    depends on the pitch and the key flags only, not on position or
    yaw. *)
Theorem heading_and_tilt_apart :
  forall (pending : list SDL_Event) (w1 w2 : World),
    keys w1 = keys w2 ->
    keys (frame cosf sinf show pending w1) = keys (frame cosf sinf show pending w2)
    /\ (camera w1 = camera w2 -> yaw w1 = yaw w2 ->
        camera (frame cosf sinf show pending w1)
        = camera (frame cosf sinf show pending w2)
        /\ yaw (frame cosf sinf show pending w1)
           = yaw (frame cosf sinf show pending w2))
    /\ (pitch w1 = pitch w2 ->
        pitch (frame cosf sinf show pending w1)
        = pitch (frame cosf sinf show pending w2)).
Proof.
  intros pending w1 w2 Hkeys.
  assert (Hframe : forall heading tilt,
             agree heading tilt w1 w2 ->
             agree heading tilt (frame cosf sinf show pending w1)
               (frame cosf sinf show pending w2)).
  { intros heading tilt H. unfold frame, posed.
    apply (respects_update heading tilt). apply respects_poll. exact H. }
  split; [| split].
  - destruct (Hframe false false) as (Hk & _); [| exact Hk].
    split; [exact Hkeys | split; discriminate].
  - intros Hc Hy. destruct (Hframe true false) as (_ & Hh & _).
    + split; [exact Hkeys | split; [intros _; split; assumption | discriminate]].
    + apply Hh. reflexivity.
  - intros Hp. destruct (Hframe false true) as (_ & _ & Ht).
    + split; [exact Hkeys | split; [discriminate | intros _; exact Hp]].
    + apply Ht. reflexivity.
Qed.

(** Extra X5. The debug line of a frame is written exactly when a key
    is held once the poll is done, as the one line behind the lines of
    the poll, and it shows the position, yaw and pitch the frame started
    with: the pose before the frame's own rotation and movement. *)
Theorem debug_line_shows_start_pose :
  forall (pending : list SDL_Event) (w : World),
    cout (frame cosf sinf show pending w)
    = (cout (poll_events pending w)
       ++ if any_key (keys (poll_events pending w))
          then [ debug_line show (camera w) (yaw w) (pitch w) ]
          else [])%list.
Proof.
  intros pending w. unfold frame, posed.
  destruct (render_camera cosf sinf
              (move cosf sinf (rotate (debug show (poll_events pending w)))))
    as (_ & _ & _ & _ & Hr).
  destruct (move_frame cosf sinf (rotate (debug show (poll_events pending w))))
    as (_ & _ & _ & _ & _ & Hm & _).
  destruct (rotate_frame (debug show (poll_events pending w)))
    as (_ & _ & _ & _ & Hro & _).
  rewrite Hr, Hm, Hro.
  destruct (poll_events_frame pending w) as (Hc & Hy & Hp & _).
  unfold debug, debug_line.
  destruct (any_key (keys (poll_events pending w))).
  - cbn [cout print]. rewrite Hc, Hy, Hp. reflexivity.
  - rewrite app_nil_r. reflexivity.
Qed.

End FrameDependence.

(** Five key-downs of W in one poll move the camera as one does. *)
Lemma frame_sees_flags_only_witness :
  let many := [ SDL_KEYDOWN SDLK_w; SDL_KEYDOWN SDLK_w; SDL_KEYDOWN SDLK_w;
                SDL_KEYDOWN SDLK_w; SDL_KEYDOWN SDLK_w ] in
  let one := [ SDL_KEYDOWN SDLK_w ] in
  camera (frame F32.cos_taylor F32.sin_taylor show_nothing many initial_world)
  = camera (frame F32.cos_taylor F32.sin_taylor show_nothing one initial_world)
  /\ yaw (frame F32.cos_taylor F32.sin_taylor show_nothing many initial_world)
     = yaw (frame F32.cos_taylor F32.sin_taylor show_nothing one initial_world)
  /\ pitch (frame F32.cos_taylor F32.sin_taylor show_nothing many initial_world)
     = pitch (frame F32.cos_taylor F32.sin_taylor show_nothing one initial_world).
Proof.
  cbv zeta.
  apply (frame_sees_flags_only F32.cos_taylor F32.sin_taylor show_nothing).
  reflexivity.
Defined.

(** Two states that differ in the pitch only, forward held. *)
Lemma heading_and_tilt_apart_witness :
  let w1 := holding forward_only in
  let w2 := set_pitch F32.one (holding forward_only) in
  keys (frame F32.cos_taylor F32.sin_taylor show_nothing [] w1)
  = keys (frame F32.cos_taylor F32.sin_taylor show_nothing [] w2)
  /\ (camera w1 = camera w2 -> yaw w1 = yaw w2 ->
      camera (frame F32.cos_taylor F32.sin_taylor show_nothing [] w1)
      = camera (frame F32.cos_taylor F32.sin_taylor show_nothing [] w2)
      /\ yaw (frame F32.cos_taylor F32.sin_taylor show_nothing [] w1)
         = yaw (frame F32.cos_taylor F32.sin_taylor show_nothing [] w2))
  /\ (pitch w1 = pitch w2 ->
      pitch (frame F32.cos_taylor F32.sin_taylor show_nothing [] w1)
      = pitch (frame F32.cos_taylor F32.sin_taylor show_nothing [] w2)).
Proof.
  cbv zeta.
  apply (heading_and_tilt_apart F32.cos_taylor F32.sin_taylor show_nothing).
  reflexivity.
Defined.

(** ** The loop as a whole *)

Section LoopProperties.

Variable cosf sinf : float -> float.
Variable show : float -> string.

(** A frame presents one picture. *)
Lemma frame_presents_once (pending : list SDL_Event) (w : World) :
  presented (calls (frame cosf sinf show pending w))
  = (presented (calls w) + 1)%nat.
Proof.
  destruct (frame_frame cosf sinf show pending w) as (_ & _ & Hcalls).
  rewrite Hcalls. unfold presented, frame_calls.
  generalize (project_cube cosf sinf (posed cosf sinf show pending w)); intro proj.
  rewrite filter_app, length_app. f_equal.
Qed.

Lemma frame_keys (pending : list SDL_Event) (w : World) :
  keys (frame cosf sinf show pending w) = keys (poll_events pending w).
Proof. destruct (frame_pose cosf sinf show pending w) as (_ & _ & _ & Hk). exact Hk. Qed.

Lemma poll_keys_from_keys (pending : list SDL_Event) (v1 v2 : World) :
  keys v1 = keys v2 -> keys (poll_events pending v1) = keys (poll_events pending v2).
Proof.
  intro Hk. destruct (respects_poll pending false false v1 v2) as (Hk' & _).
  - split; [exact Hk | split; discriminate].
  - exact Hk'.
Qed.

(** Extra X6. A run of the loop that starts with the quit flag clear
    gets to the polls up to and including the first that holds a quit
    event, and to no poll behind it: the state it ends in is the same
    whatever polls follow. It ends with the quit flag set exactly when
    some poll holds a quit event, and it has presented exactly one
    picture (one call to [SDL_RenderPresent]) for each poll it got to,
    the frame of the quit event included. *)
Theorem loop_runs_to_first_quit :
  forall (polls : list (list SDL_Event)) (w : World),
    quit w = false ->
    loop cosf sinf show polls w = loop cosf sinf show (consumed polls) w
    /\ quit (loop cosf sinf show polls w) = existsb (existsb is_quit) polls
    /\ presented (calls (loop cosf sinf show polls w))
       = (presented (calls w) + List.length (consumed polls))%nat.
Proof.
  induction polls as [| pending later IH]; intros w Hrun.
  - cbn [consumed loop existsb List.length]. rewrite Hrun.
    split; [reflexivity | split; [exact Hrun | lia]].
  - rewrite loop_step by exact Hrun. cbn [consumed existsb].
    destruct (frame_frame cosf sinf show pending w) as (_ & Hq & _).
    rewrite Hrun in Hq. cbn [orb] in Hq.
    destruct (existsb is_quit pending) eqn:Hquit.
    + (* the quit event is in this poll *)
      rewrite loop_step by exact Hrun.
      rewrite !loop_stopped by exact Hq.
      rewrite frame_presents_once. cbn [orb List.length].
      split; [reflexivity | split; [exact Hq | lia]].
    + destruct (IH (frame cosf sinf show pending w) Hq) as (Hsame & Hend & Hlen).
      rewrite loop_step by exact Hrun. cbn [orb List.length].
      split; [exact Hsame | split; [exact Hend |]].
      rewrite Hlen, frame_presents_once. lia.
Qed.

(** Extra X7. The key flags are a fold of the events alone: after any
    run of the loop they are what polling, in one go, all the events of
    the polls the run got to would have left; nothing a frame does
    between two polls touches them, so a key stays held from its
    key-down to its key-up across any number of frames. *)
Theorem keys_fold_the_events :
  forall (polls : list (list SDL_Event)) (w : World),
    quit w = false ->
    keys (loop cosf sinf show polls w)
    = keys (poll_events (List.concat (consumed polls)) w).
Proof.
  induction polls as [| pending later IH]; intros w Hrun.
  - cbn [consumed List.concat poll_events loop]. rewrite Hrun. reflexivity.
  - rewrite loop_step by exact Hrun. cbn [consumed].
    destruct (frame_frame cosf sinf show pending w) as (_ & Hq & _).
    rewrite Hrun in Hq. cbn [orb] in Hq.
    destruct (existsb is_quit pending) eqn:Hquit.
    + rewrite loop_stopped by exact Hq.
      cbn [List.concat]. rewrite app_nil_r. apply frame_keys.
    + rewrite (IH _ Hq). cbn [List.concat]. rewrite poll_events_app.
      apply poll_keys_from_keys. apply frame_keys.
Qed.

End LoopProperties.

(** Four polls, a quit event in the third: three frames are run. *)
Lemma loop_runs_to_first_quit_witness :
  let polls := [ [ SDL_KEYDOWN SDLK_w ]; []; [ SDL_QUIT; SDL_KEYUP SDLK_w ];
                 [ SDL_KEYDOWN SDLK_a ] ] in
  loop F32.cos_taylor F32.sin_taylor show_nothing polls initial_world
  = loop F32.cos_taylor F32.sin_taylor show_nothing (consumed polls) initial_world
  /\ quit (loop F32.cos_taylor F32.sin_taylor show_nothing polls initial_world)
     = existsb (existsb is_quit) polls
  /\ presented
       (calls (loop F32.cos_taylor F32.sin_taylor show_nothing polls initial_world))
     = (presented (calls initial_world) + List.length (consumed polls))%nat.
Proof.
  cbv zeta.
  apply (loop_runs_to_first_quit F32.cos_taylor F32.sin_taylor show_nothing).
  reflexivity.
Defined.

(** W pressed in the first poll and released in the third, two idle
    frames between. *)
Lemma keys_fold_the_events_witness :
  let polls := [ [ SDL_KEYDOWN SDLK_w ]; []; [ SDL_KEYUP SDLK_w; SDL_KEYDOWN SDLK_d ] ] in
  keys (loop F32.cos_taylor F32.sin_taylor show_nothing polls initial_world)
  = keys (poll_events (List.concat (consumed polls)) initial_world).
Proof.
  cbv zeta.
  apply (keys_fold_the_events F32.cos_taylor F32.sin_taylor show_nothing).
  reflexivity.
Defined.

(** ** The resources of SDL *)

Section ResourceProperties.

Variable cosf sinf : float -> float.
Variable show : float -> string.

Lemma after_calls_app (sdl : Platform) (h : Held) (cs1 cs2 : list SDL_Call) :
  after_calls sdl h (cs1 ++ cs2)%list
  = match after_calls sdl h cs1 with
    | Some h' => after_calls sdl h' cs2
    | None => None
    end.
Proof.
  revert h. induction cs1 as [| c cs1 IH]; intro h; cbn [after_calls app].
  - reflexivity.
  - destruct (after_call sdl h c) as [h' |]; [apply IH | reflexivity].
Qed.

(** The calls of a frame need the renderer and leave everything held. *)
Lemma frame_calls_held (sdl : Platform) (w : World) :
  after_calls sdl all_held (frame_calls cosf sinf w) = Some all_held.
Proof.
  unfold frame_calls.
  generalize (project_cube cosf sinf w); intro proj.
  reflexivity.
Qed.

Lemma loop_calls_held (sdl : Platform) (polls : list (list SDL_Event)) (w : World) :
  after_calls sdl all_held (calls w) = Some all_held ->
  after_calls sdl all_held (calls (loop cosf sinf show polls w)) = Some all_held.
Proof.
  revert w. induction polls as [| pending later IH]; intros w Hheld.
  - cbn [loop]. destruct (quit w); exact Hheld.
  - destruct (quit w) eqn:Hq.
    + rewrite loop_stopped by exact Hq. exact Hheld.
    + rewrite loop_step by exact Hq. apply IH.
      destruct (frame_frame cosf sinf show pending w) as (_ & _ & Hcalls).
      rewrite Hcalls, after_calls_app, Hheld. apply frame_calls_held.
Qed.

(** Extra X8. On every platform and for every input, [main] keeps to
    the discipline of SDL's resources: it makes no call without what
    the call needs (no window without the library, no renderer without
    the window, no drawing without the renderer), releases nothing it
    does not hold, releases the renderer before the window and the
    window before the library, and when it returns, with either status,
    nothing is left held; while the loop runs all three are held. *)
Theorem main_releases_what_it_acquired :
  forall (sdl : Platform) (polls : list (list SDL_Event)),
    let r := main cosf sinf show sdl polls in
    after_calls sdl nothing_held (sdl_calls r)
    = Some (match status r with Some _ => nothing_held | None => all_held end).
Proof.
  intros sdl polls; cbv zeta.
  pose proof (loop_calls_held sdl polls initial_world eq_refl) as Hheld.
  unfold main. revert Hheld.
  generalize (loop cosf sinf show polls initial_world); intro w.
  destruct sdl as [init window renderer text].
  cbn [init_ok window_ok renderer_ok].
  destruct init; cbn [negb]; [destruct window; cbn [negb];
                              [destruct renderer; cbn [negb] | ] | ].
  - (* the three start-up calls succeed *)
    intro Hheld.
    destruct (quit w); cbn [status sdl_calls];
      rewrite after_calls_app;
      cbn [after_calls after_call nothing_held sdl_up window_up renderer_up
           andb negb init_ok window_ok renderer_ok];
      fold all_held; rewrite ?after_calls_app, Hheld; reflexivity.
  - intros _. reflexivity.
  - intros _. reflexivity.
  - intros _. reflexivity.
Qed.

End ResourceProperties.

(** ** Movement along the axes *)

Module F32Exact.

Import F32 F32Facts.

Local Open Scope Z_scope.

(** Subtracting a finite value is adding the value of the other sign. *)
Lemma sub_add_opp (a : float) (s : bool) (m : positive) (e : Z) :
  sub a (S754_finite s m e) = add a (S754_finite (negb s) m e).
Proof.
  destruct a as [sa | sa | | sa ma ea]; try reflexivity.
  unfold sub, add, SFsub, SFadd. destruct s; reflexivity.
Qed.

Lemma of_int_opp (n : Z) (s : bool) (m : positive) (e : Z) :
  exact_int n -> of_int n = S754_finite s m e ->
  of_int (- n) = S754_finite (negb s) m e.
Proof.
  unfold exact_int. intros Hn Hshape. destruct n as [| q | q].
  - discriminate Hshape.
  - destruct (int_repr q Hn) as (mc & ec & Hb & Hec & Hval).
    rewrite (of_int_pos q mc ec Hb) in Hshape by (lia || exact Hval).
    injection Hshape as <- <- <-.
    change (- Zpos q) with (Zneg q).
    apply of_int_neg; [exact Hb | lia | exact Hval].
  - destruct (int_repr q Hn) as (mc & ec & Hb & Hec & Hval).
    rewrite (of_int_neg q mc ec Hb) in Hshape by (lia || exact Hval).
    injection Hshape as <- <- <-.
    change (- Zneg q) with (Zpos q).
    apply of_int_pos; [exact Hb | lia | exact Hval].
Qed.

Lemma of_int_sub_zero (n : Z) : exact_int n -> sub (of_int n) zero = of_int n.
Proof.
  intro Hn.
  destruct (of_int_shape n Hn) as [[_ ->] | (mc & ec & _ & _ & _ & _ & ->)];
    reflexivity.
Qed.

(** Integers subtract exactly while the difference stays below 2^24
    in magnitude. *)
Lemma sub_of_int (a b : Z) :
  exact_int a -> exact_int b -> exact_int (a - b) ->
  sub (of_int a) (of_int b) = of_int (a - b).
Proof.
  intros Ha Hb Hab.
  destruct (of_int_shape b Hb)
    as [[-> Hzb] | (mb & eb & Hnzb & Hbb & Heb & Hvalb & Hrb)].
  - rewrite Z.sub_0_r. apply of_int_sub_zero. exact Ha.
  - rewrite Hrb, sub_add_opp, <- (of_int_opp b _ _ _ Hb Hrb).
    apply add_of_int; [exact Ha | unfold exact_int in *; lia | exact Hab].
Qed.

End F32Exact.

Section AxisProperties.

Variable cosf sinf : float -> float.
Variable show : float -> string.

Local Open Scope Z_scope.

(** With none of W, A, S and D held the movement leaves X and Z. *)
Lemma move_upright (w : World) :
  key_w (keys w) = false -> key_a (keys w) = false ->
  key_s (keys w) = false -> key_d (keys w) = false ->
  x (camera (move cosf sinf w)) = x (camera w)
  /\ z (camera (move cosf sinf w)) = z (camera w).
Proof.
  destruct w as [c a p cb [kw ka ks kd kq ke kl kr ku kdn] q o cl].
  cbn [keys key_w key_a key_d key_s camera]. intros -> -> -> ->.
  destruct kq, ke; run_steps; split; reflexivity.
Qed.

(** The camera position a frame starts from reaches its movement step
    untouched. *)
Lemma camera_before_move (pending : list SDL_Event) (w : World) :
  let v := rotate (debug show (poll_events pending w)) in
  camera v = camera w /\ keys v = keys (poll_events pending w)
  /\ camera (frame cosf sinf show pending w) = camera (move cosf sinf v).
Proof.
  cbv zeta.
  destruct (frame_pose cosf sinf show pending w) as (Hcam & _).
  destruct (poll_events_frame pending w) as (Hc0 & _).
  destruct (debug_frame show (poll_events pending w)) as (Hc1 & _ & _ & _ & Hk1 & _).
  destruct (rotate_frame (debug show (poll_events pending w))) as (Hc2 & _ & Hk2 & _).
  rewrite Hc2, Hc1, Hc0, Hk2, Hk1.
  split; [reflexivity | split; [reflexivity | exact Hcam]].
Qed.

(** Extra X9. Whatever the yaw and the pitch, whatever the rotation
    keys do in the same frame and whatever the events of its poll: a
    frame after whose poll neither Q nor E is held leaves the camera's Y
    exactly as it was, and a frame after whose poll none of W, A, S and
    D is held leaves the camera's X and Z exactly as they were. *)
Theorem movement_axes_apart :
  forall (pending : list SDL_Event) (w : World),
    let k := keys (poll_events pending w) in
    let w' := frame cosf sinf show pending w in
    (key_q k = false -> key_e k = false -> y (camera w') = y (camera w))
    /\ (key_w k = false -> key_a k = false -> key_s k = false -> key_d k = false ->
        x (camera w') = x (camera w) /\ z (camera w') = z (camera w)).
Proof.
  intros pending w; cbv zeta.
  destruct (camera_before_move pending w) as (Hc & Hk & Hcam).
  rewrite Hcam, <- Hk, <- Hc.
  generalize (rotate (debug show (poll_events pending w))); intro v.
  split.
  - intros Hq He. apply move_level; assumption.
  - intros Hw Ha Hs Hd. apply move_upright; assumption.
Qed.

Hypothesis cos_zero : cosf F32.zero = F32.one.
Hypothesis sin_zero : sinf F32.zero = F32.zero.

(** The yaw moves with the two yaw keys only. *)
Lemma rotate_yaw_idle (w : World) :
  key_left (keys w) = false -> key_right (keys w) = false ->
  yaw (rotate w) = yaw w.
Proof.
  destruct w as [c a p cb [kw ka ks kd kq ke kl kr ku kdn] q o cl].
  cbn [keys key_left key_right yaw]. intros -> ->.
  destruct ku, kdn; run_steps; reflexivity.
Qed.

(** The movement step at yaw 0 from a camera on the integer grid. *)
Lemma move_on_grid (w : World) (a b d : Z) :
  yaw w = F32.zero -> camera w = vertex a b d ->
  Z.abs a + 16 < 2 ^ 24 -> Z.abs b + 16 < 2 ^ 24 -> Z.abs d + 16 < 2 ^ 24 ->
  camera (move cosf sinf w)
  = vertex (a + stride (key_d (keys w)) (key_a (keys w)))
           (b + stride (key_e (keys w)) (key_q (keys w)))
           (d + stride (key_w (keys w)) (key_s (keys w))).
Proof.
  destruct w as [c yw p cb [kw ka ks kd kq ke kl kr ku kdn] q o cl].
  cbn [keys key_w key_a key_s key_d key_q key_e camera yaw].
  intros -> -> Ha Hb Hd.
  assert (H16 : moveSpeed = F32.of_int 16) by reflexivity.
  destruct ka, kd, kw, ks, kq, ke; run_steps;
    unfold vertex; cbn [x y z];
    rewrite ?cos_zero, ?sin_zero, ?forward_step_z, ?forward_step_x, ?H16;
    repeat first
      [ rewrite F32Exact.sub_of_int by (unfold F32.exact_int; lia)
      | rewrite F32Facts.add_of_int by (unfold F32.exact_int; lia)
      | rewrite (F32Facts.of_int_add_zero _ F32.zero)
          by (reflexivity || (unfold F32.exact_int; lia))
      | rewrite F32Exact.of_int_sub_zero by (unfold F32.exact_int; lia) ];
    unfold stride;
    f_equal; apply (f_equal F32.of_int); lia.
Qed.

(** One frame with no event pending, at yaw 0 with no yaw key held,
    from a camera on the integer grid. *)
Lemma frame_on_grid (w : World) (a b d : Z) :
  yaw w = F32.zero ->
  key_left (keys w) = false -> key_right (keys w) = false ->
  camera w = vertex a b d ->
  Z.abs a + 16 < 2 ^ 24 -> Z.abs b + 16 < 2 ^ 24 -> Z.abs d + 16 < 2 ^ 24 ->
  let w' := frame cosf sinf show [] w in
  camera w'
  = vertex (a + stride (key_d (keys w)) (key_a (keys w)))
           (b + stride (key_e (keys w)) (key_q (keys w)))
           (d + stride (key_w (keys w)) (key_s (keys w)))
  /\ yaw w' = F32.zero /\ keys w' = keys w /\ quit w' = quit w.
Proof.
  intros Hyaw Hl Hr Hcam Ha Hb Hd; cbv zeta.
  destruct (frame_pose cosf sinf show [] w) as (Hc' & Hy' & _ & Hk').
  destruct (frame_frame cosf sinf show [] w) as (_ & Hq' & _).
  cbn [poll_events existsb] in Hc', Hy', Hk', Hq'.
  rewrite orb_false_r in Hq'.
  destruct (debug_frame show w) as (Hc1 & Hy1 & _ & _ & Hk1 & _).
  destruct (rotate_frame (debug show w)) as (Hc2 & _ & Hk2 & _).
  assert (Hy2 : yaw (rotate (debug show w)) = F32.zero).
  { rewrite rotate_yaw_idle by (rewrite Hk1; assumption).
    rewrite Hy1. exact Hyaw. }
  rewrite Hc', Hy', Hk', Hq'.
  split; [| split; [exact Hy2 | split; reflexivity]].
  rewrite (move_on_grid (rotate (debug show w)) a b d Hy2);
    [ rewrite Hk2, Hk1; reflexivity
    | rewrite Hc2, Hc1; exact Hcam | exact Ha | exact Hb | exact Hd ].
Qed.

Lemma stride_bound (plus minus : bool) : Z.abs (stride plus minus) <= 16.
Proof. destruct plus, minus; unfold stride; lia. Qed.

(** Extra X10. When the library gives cos 0 = 1 and sin 0 = 0: at
    yaw 0 with no yaw key held, from a camera on integer coordinates
    [(a, b, d)], [n] frames with no event pending move the camera along
    the axes in exact steps of 16 per frame: D and A along +X and -X,
    E and Q along +Y and -Y, W and S along +Z and -Z, two opposite keys
    held together cancelling; provided each coordinate stays below 2^24
    in magnitude on the way. The pitch and the pitch keys play no
    part. *)
Theorem axis_walk_at_yaw_zero :
  forall (n : nat) (w : World) (a b d : Z),
    yaw w = F32.zero ->
    key_left (keys w) = false -> key_right (keys w) = false ->
    quit w = false ->
    camera w = vertex a b d ->
    Z.abs a + 16 * Z.of_nat n < 2 ^ 24 ->
    Z.abs b + 16 * Z.of_nat n < 2 ^ 24 ->
    Z.abs d + 16 * Z.of_nat n < 2 ^ 24 ->
    let k := keys w in
    let w' := loop cosf sinf show (idle_polls n) w in
    camera w'
    = vertex (a + Z.of_nat n * stride (key_d k) (key_a k))
             (b + Z.of_nat n * stride (key_e k) (key_q k))
             (d + Z.of_nat n * stride (key_w k) (key_s k))
    /\ yaw w' = F32.zero /\ keys w' = k.
Proof.
  induction n as [| n IH]; intros w a b d Hyaw Hl Hr Hquit Hcam Ha Hb Hd; cbv zeta.
  - rewrite idle_polls_none. rewrite Hcam.
    cbn [Z.of_nat Z.mul]. rewrite !Z.add_0_r.
    split; [reflexivity | split; [exact Hyaw | reflexivity]].
  - rewrite idle_polls_step by exact Hquit.
    destruct (frame_on_grid w a b d Hyaw Hl Hr Hcam)
      as (Hcam1 & Hyaw1 & Hk1 & Hq1); try lia.
    set (w1 := frame cosf sinf show [] w) in *.
    pose proof (stride_bound (key_d (keys w)) (key_a (keys w))) as Sx.
    pose proof (stride_bound (key_e (keys w)) (key_q (keys w))) as Sy.
    pose proof (stride_bound (key_w (keys w)) (key_s (keys w))) as Sz.
    assert (Hl1 : key_left (keys w1) = false) by (rewrite Hk1; exact Hl).
    assert (Hr1 : key_right (keys w1) = false) by (rewrite Hk1; exact Hr).
    assert (Hquit1 : quit w1 = false) by (rewrite Hq1; exact Hquit).
    destruct (IH w1 _ _ _ Hyaw1 Hl1 Hr1 Hquit1 Hcam1) as (Hcam' & Hyaw' & Hk');
      try lia.
    rewrite Hcam', Hyaw', Hk', !Hk1.
    split; [| split; reflexivity].
    unfold vertex. f_equal; apply (f_equal F32.of_int); lia.
Qed.

End AxisProperties.

(** E pressed in the poll of a frame that starts at the initial state:
    the camera rises and stays over the same spot. *)
Lemma movement_axes_apart_witness :
  let pending := [ SDL_KEYDOWN SDLK_e; SDL_KEYDOWN SDLK_LEFT ] in
  let k := keys (poll_events pending initial_world) in
  let w' := frame F32.cos_taylor F32.sin_taylor show_nothing pending initial_world in
  (key_q k = false -> key_e k = false ->
   y (camera w') = y (camera initial_world))
  /\ (key_w k = false -> key_a k = false -> key_s k = false -> key_d k = false ->
      x (camera w') = x (camera initial_world)
      /\ z (camera w') = z (camera initial_world)).
Proof.
  cbv zeta.
  apply (movement_axes_apart F32.cos_taylor F32.sin_taylor show_nothing).
Defined.

(** Ten frames from the initial state with W, D, E and S held: ten
    steps along +X and +Y, none along Z. *)
Lemma axis_walk_at_yaw_zero_witness :
  let k := set_key_w true (set_key_d true (set_key_e true (set_key_s true no_keys))) in
  let w' := loop F32.cos_taylor F32.sin_taylor show_nothing (idle_polls 10)
              (holding k) in
  camera w' = vertex 160 160 0 /\ yaw w' = F32.zero /\ keys w' = k.
Proof.
  cbv zeta.
  apply (axis_walk_at_yaw_zero F32.cos_taylor F32.sin_taylor show_nothing
           eq_refl eq_refl 10%nat
           (holding (set_key_w true (set_key_d true (set_key_e true
                       (set_key_s true no_keys)))))
           0%Z 0%Z 0%Z);
    reflexivity.
Defined.

(** ** Points straight ahead *)

Section AheadProperties.

Variable cosf sinf : float -> float.

Hypothesis cos_zero : cosf F32.zero = F32.one.
Hypothesis sin_zero : sinf F32.zero = F32.zero.

Local Open Scope Z_scope.



End AheadProperties.


(** ** The view direction *)

Section ViewProperties.

Variable cosf sinf : float -> float.
Variable show : float -> string.

Lemma arrow_recognized (sym : Z) : In sym arrow_keys -> In sym recognized_keys.
Proof.
  unfold arrow_keys, recognized_keys. simpl.
  intros [K | [K | [K | [K | []]]]]; subst sym; tauto.
Qed.

Lemma arrows_off_flags (k : Keys) :
  arrows_off k <-> (forall sym, In sym arrow_keys -> flag sym k = false).
Proof.
  unfold arrows_off, arrow_keys. split.
  - intros (Hl & Hr & Hu & Hd) sym Hsym. simpl in Hsym.
    destruct Hsym as [K | [K | [K | [K | []]]]]; subst sym; assumption.
  - intro Hoff.
    pose proof (Hoff SDLK_LEFT) as Hl. pose proof (Hoff SDLK_RIGHT) as Hr.
    pose proof (Hoff SDLK_UP) as Hu. pose proof (Hoff SDLK_DOWN) as Hd.
    simpl in Hl, Hr, Hu, Hd.
    split; [apply Hl | split; [apply Hr | split; [apply Hu | apply Hd]]]; tauto.
Qed.

(** A poll without a key-down of an arrow key leaves the four off. *)
Lemma poll_arrows_off (pending : list SDL_Event) (w : World) :
  arrows_off (keys w) -> existsb arrow_pressed pending = false ->
  arrows_off (keys (poll_events pending w)).
Proof.
  revert w. induction pending as [| e rest IH]; intros w Hoff Hnone.
  - exact Hoff.
  - cbn [existsb] in Hnone. apply orb_false_elim in Hnone.
    destruct Hnone as [He Hrest].
    cbn [poll_events]. apply IH; [| exact Hrest].
    apply arrows_off_flags. rewrite arrows_off_flags in Hoff.
    intros sym Hsym.
    rewrite (flag_after_event sym e w (arrow_recognized sym Hsym)).
    destruct e as [| s | s |]; cbn [transition_of].
    + apply Hoff, Hsym.
    + destruct (Z.eqb_spec s sym) as [-> | _]; [| apply Hoff, Hsym].
      exfalso. cbn [arrow_pressed] in He.
      assert (Hin : existsb (Z.eqb sym) arrow_keys = true).
      { apply existsb_exists. exists sym. split; [exact Hsym | apply Z.eqb_refl]. }
      rewrite Hin in He. discriminate He.
    + destruct (Z.eqb s sym); [reflexivity | apply Hoff, Hsym].
    + apply Hoff, Hsym.
Qed.

(** Extra X12. The view turns on the arrow keys only: in a run that
    starts with none of the four arrow keys held and whose polls hold no
    key-down of an arrow key, the yaw and the pitch are at the end
    exactly what they were at the start, whatever other events arrive
    and however the camera moves. *)
Theorem view_turns_on_arrow_keys_only :
  forall (polls : list (list SDL_Event)) (w : World),
    arrows_off (keys w) ->
    existsb (existsb arrow_pressed) polls = false ->
    yaw (loop cosf sinf show polls w) = yaw w
    /\ pitch (loop cosf sinf show polls w) = pitch w.
Proof.
  induction polls as [| pending later IH]; intros w Hoff Hnone.
  - cbn [loop]. destruct (quit w); split; reflexivity.
  - destruct (quit w) eqn:Hq.
    + rewrite loop_stopped by exact Hq. split; reflexivity.
    + rewrite loop_step by exact Hq.
      cbn [existsb] in Hnone. apply orb_false_elim in Hnone.
      destruct Hnone as [Hhere Hlater].
      pose proof (poll_arrows_off pending w Hoff Hhere) as Hoff'.
      destruct (frame_pose cosf sinf show pending w) as (_ & Hy & Hp & Hk).
      destruct (poll_events_frame pending w) as (_ & Hy0 & Hp0 & _).
      destruct (debug_frame show (poll_events pending w))
        as (_ & Hy1 & Hp1 & _ & Hk1 & _).
      destruct Hoff' as (Hl & Hr & Hu & Hd).
      rewrite rotate_idle in Hy, Hp by (rewrite Hk1; assumption).
      rewrite Hy1, Hy0 in Hy. rewrite Hp1, Hp0 in Hp.
      destruct (IH (frame cosf sinf show pending w)) as (Hyaw & Hpitch);
        [ rewrite Hk; repeat split; assumption | exact Hlater | ].
      rewrite Hyaw, Hpitch, Hy, Hp. split; reflexivity.
Qed.

End ViewProperties.

(** A walk with W and D and a release of the up key, which was never
    pressed. *)
Lemma view_turns_on_arrow_keys_only_witness :
  let polls := [ [ SDL_KEYDOWN SDLK_w ]; [ SDL_KEYUP SDLK_UP; SDL_KEYDOWN SDLK_d ];
                 []; [ SDL_QUIT ] ] in
  let w' := loop F32.cos_taylor F32.sin_taylor show_nothing polls initial_world in
  yaw w' = yaw initial_world /\ pitch w' = pitch initial_world.
Proof.
  cbv zeta.
  apply (view_turns_on_arrow_keys_only F32.cos_taylor F32.sin_taylor show_nothing).
  - repeat split.
  - reflexivity.
Defined.
